(** * Event chat core of eventfi-backend-v2

    A shallow embedding of [ChatService] (src/src/v1/services/chat.service.ts)
    and of the realtime gateway's room bookkeeping
    (src/src/v1/websocket/chat.socket.ts).

    The relational store behind Prisma is a record of tables, each a list of
    rows in storage order; [findFirst]/[findUnique] return the first matching
    row.  The constraints of the migration
    (src/prisma/migrations/20260206183640_init/migration.sql) that the chat
    code runs into are checked where a write would hit them: the unique
    indexes [EventChat(eventId)] and [ChatMember(chatId, userId)] and the
    foreign keys [EventChat.eventId] and [ChatMessage.replyToId].
    Identifiers (UUID columns) are [nat]; fresh ones come from a counter.
    Timestamps are milliseconds since the epoch, as [Z].  A service method is
    a function in a small state-and-exception monad [M]: a thrown [Error]
    keeps the writes made before it, as awaited Prisma calls do. *)

From Stdlib Require Import List Bool ZArith Lia Arith Sorted Permutation.
From Stdlib Require String Ascii DecimalString.
Import ListNotations String.StringSyntax Ascii.AsciiSyntax.

Open Scope Z_scope.
Delimit Scope string_scope with string.
Delimit Scope char_scope with char.

(** ** Data model *)

Abbreviation Id := nat (only parsing).
Abbreviation Time := Z (only parsing).

(** Prisma enum [ChatRole]. *)
Inductive ChatRole := MEMBER | MODERATOR | ORGANIZER.

(** Prisma enum [TeamRole]. *)
Inductive TeamRole := TEAM_ORGANIZER | CO_HOST | MANAGER | ASSISTANT.

(** Prisma enum [TeamMemberStatus]. *)
Inductive TeamMemberStatus := ACTIVE | PENDING.

(** Prisma enum [OrderStatus]. *)
Inductive OrderStatus :=
  ORDER_PENDING | CONFIRMED | ORDER_CANCELLED | REFUNDED | EXPIRED.

(** Prisma enum [MessageType]. *)
Inductive MessageType := TEXT | IMAGE | ANNOUNCEMENT | SYSTEM.

Definition ChatRole_eqb (a b : ChatRole) : bool :=
  match a, b with
  | MEMBER, MEMBER | MODERATOR, MODERATOR | ORGANIZER, ORGANIZER => true
  | _, _ => false
  end.

Definition MessageType_eqb (a b : MessageType) : bool :=
  match a, b with
  | TEXT, TEXT | IMAGE, IMAGE | ANNOUNCEMENT, ANNOUNCEMENT | SYSTEM, SYSTEM => true
  | _, _ => false
  end.

(** The columns of [Event] the chat code selects. *)
Record Event := mkEvent {
  ev_id : Id;
  organizerId : Id;
  endDate : Time
}.

Record EventTeamMember := mkTeamMember {
  tm_eventId : Id;
  tm_userId : option Id;
  tm_role : TeamRole;
  tm_status : TeamMemberStatus
}.

(** An [Attendee] row together with the columns of its [order] that the
    ticket lookup filters on. *)
Record Attendee := mkAttendee {
  att_eventId : Id;
  att_userId : Id;
  att_orderStatus : OrderStatus
}.

Record EventChat := mkEventChat {
  chat_id : Id;
  chat_eventId : Id;
  isActive : bool;
  slowMode : Z;
  membersOnly : bool
}.

Record ChatMember := mkChatMember {
  m_id : Id;
  m_chatId : Id;
  m_userId : Id;
  m_role : ChatRole;
  isMuted : bool;
  mutedUntil : option Time;
  joinedAt : Time;
  lastSeenAt : Time
}.

(** [content] is the JavaScript string as its UTF-16 code units, so that
    [length content] is [content.length]. *)
Record ChatMessage := mkChatMessage {
  msg_id : Id;
  msg_chatId : Id;
  senderId : Id;
  content : list N;
  msg_type : MessageType;
  replyToId : option Id;
  isPinned : bool;
  isDeleted : bool;
  deletedBy : option Id;
  createdAt : Time
}.

Record Store := mkStore {
  events : list Event;
  teamMembers : list EventTeamMember;
  attendees : list Attendee;
  chats : list EventChat;
  members : list ChatMember;
  messages : list ChatMessage;
  next_id : Id
}.

(** The [Error] messages thrown by the service ([CHAT_ERROR_CODES] and the
    literal messages), a constraint violation raised by the store, and the
    failure of a write carrying an Invalid Date. *)
Inductive ChatError :=
| E_CHAT_NOT_FOUND
| E_NO_TICKET
| E_CHAT_DISABLED
| E_USER_MUTED
| E_SLOW_MODE (remaining_seconds : Z)
| E_MESSAGE_TOO_LONG
| E_NOT_AUTHORIZED
| E_MESSAGE_NOT_FOUND      (* 'Message not found' *)
| E_USER_NOT_FOUND_IN_CHAT (* 'User not found in chat' *)
| E_INVALID_ACTION         (* 'Invalid action' *)
| E_CONSTRAINT             (* unique index or foreign key violated *)
| E_INVALID_DATE.          (* Prisma refuses an Invalid Date *)

(** ** The service monad: state passing with exceptions *)

Definition M (A : Type) : Type := Store -> (ChatError + A) * Store.

Definition ret {A} (a : A) : M A := fun st => (inr a, st).

Definition bind {A B} (m : M A) (f : A -> M B) : M B :=
  fun st =>
    match m st with
    | (inl e, st') => (inl e, st')
    | (inr a, st') => f a st'
    end.

Definition throw {A} (e : ChatError) : M A := fun st => (inl e, st).

Definition gets {A} (f : Store -> A) : M A := fun st => (inr (f st), st).

Definition modify (f : Store -> Store) : M unit := fun st => (inr tt, f st).

Notation "'let*' x ':=' m 'in' k" := (bind m (fun x => k))
  (at level 200, x name, m at level 100, k at level 200).

Notation "'let*' ' p ':=' m 'in' k" := (bind m (fun x => match x with p => k end))
  (at level 200, p pattern, m at level 100, k at level 200).

Definition when (b : bool) (e : ChatError) : M unit :=
  if b then throw e else ret tt.

(** ** Store queries and updates *)

Section Tables.

Definition set_events (st : Store) l :=
  mkStore l (teamMembers st) (attendees st) (chats st) (members st) (messages st) (next_id st).
Definition set_chats (st : Store) l :=
  mkStore (events st) (teamMembers st) (attendees st) l (members st) (messages st) (next_id st).
Definition set_members (st : Store) l :=
  mkStore (events st) (teamMembers st) (attendees st) (chats st) l (messages st) (next_id st).
Definition set_messages (st : Store) l :=
  mkStore (events st) (teamMembers st) (attendees st) (chats st) (members st) l (next_id st).

(** A fresh primary key. *)
Definition fresh_id : M Id :=
  fun st => (inr (next_id st),
             mkStore (events st) (teamMembers st) (attendees st) (chats st)
                     (members st) (messages st) (S (next_id st))).

Definition findEvent (st : Store) (eventId : Id) : option Event :=
  find (fun e => Nat.eqb (ev_id e) eventId) (events st).

(** [prisma.eventChat.findUnique({ where: { eventId } })] *)
Definition findChatByEvent (st : Store) (eventId : Id) : option EventChat :=
  find (fun c => Nat.eqb (chat_eventId c) eventId) (chats st).

(** [prisma.chatMember.findUnique({ where: { chatId_userId } })] *)
Definition member_is (chatId userId : Id) (m : ChatMember) : bool :=
  Nat.eqb (m_chatId m) chatId && Nat.eqb (m_userId m) userId.

Definition findMember (st : Store) (chatId userId : Id) : option ChatMember :=
  find (member_is chatId userId) (members st).

(** Every membership row of the pair (chat, user). *)
Definition member_rows (st : Store) (chatId userId : Id) : list ChatMember :=
  filter (member_is chatId userId) (members st).

(** [prisma.chatMessage.findUnique({ where: { id } })] *)
Definition findMessage (st : Store) (id : Id) : option ChatMessage :=
  find (fun m => Nat.eqb (msg_id m) id) (messages st).

(** [prisma.chatMember.count({ where: { chatId } })], the [_count.members]
    of an [include]. *)
Definition countMembers (st : Store) (chatId : Id) : nat :=
  length (filter (fun m => Nat.eqb (m_chatId m) chatId) (members st)).

(** [prisma.chatMember.update({ where: { id }, data })]. *)
Definition update_member (id : Id) (f : ChatMember -> ChatMember) : M unit :=
  modify (fun st =>
    set_members st (map (fun m => if Nat.eqb (m_id m) id then f m else m) (members st))).

Definition update_message (id : Id) (f : ChatMessage -> ChatMessage) : M unit :=
  modify (fun st =>
    set_messages st (map (fun m => if Nat.eqb (msg_id m) id then f m else m) (messages st))).

Definition with_lastSeenAt (t : Time) (m : ChatMember) : ChatMember :=
  mkChatMember (m_id m) (m_chatId m) (m_userId m) (m_role m) (isMuted m)
               (mutedUntil m) (joinedAt m) t.

Definition with_mute (muted : bool) (until : option Time) (m : ChatMember) : ChatMember :=
  mkChatMember (m_id m) (m_chatId m) (m_userId m) (m_role m) muted
               until (joinedAt m) (lastSeenAt m).

Definition with_pinned (p : bool) (m : ChatMessage) : ChatMessage :=
  mkChatMessage (msg_id m) (msg_chatId m) (senderId m) (content m) (msg_type m)
                (replyToId m) p (isDeleted m) (deletedBy m) (createdAt m).

Definition with_deleted (by_ : Id) (m : ChatMessage) : ChatMessage :=
  mkChatMessage (msg_id m) (msg_chatId m) (senderId m) (content m) (msg_type m)
                (replyToId m) (isPinned m) true (Some by_) (createdAt m).

End Tables.

(** ** Roles and permissions *)

Record ChatRolePermissions := mkPermissions {
  canSendMessage : bool;
  canDeleteOwn : bool;
  canDeleteAny : bool;
  canPin : bool;
  canMute : bool;
  canAnnounce : bool;
  canChangeSettings : bool
}.

(** [ROLE_PERMISSIONS[role] || ROLE_PERMISSIONS.MEMBER]: the column is the
    [ChatRole] enum, so the lookup always hits. *)
Definition ROLE_PERMISSIONS (r : ChatRole) : ChatRolePermissions :=
  match r with
  | MEMBER => mkPermissions true true false false false false false
  | MODERATOR => mkPermissions true true true true true false false
  | ORGANIZER => mkPermissions true true true true true true true
  end.

(** [roleOrder] of [muteUser]. *)
Definition roleOrder (r : ChatRole) : Z :=
  match r with MEMBER => 0 | MODERATOR => 1 | ORGANIZER => 2 end.

(** [prisma.eventTeamMember.findFirst({ where: { eventId, userId, status: 'ACTIVE' } })] *)
Definition findActiveTeamMember (st : Store) (eventId userId : Id) : option EventTeamMember :=
  find (fun t => Nat.eqb (tm_eventId t) eventId
                 && match tm_userId t with Some u => Nat.eqb u userId | None => false end
                 && match tm_status t with ACTIVE => true | PENDING => false end)
       (teamMembers st).

(** The role computed at the top of [getOrJoinChat]. *)
Definition resolveRole (st : Store) (ev : Event) (eventId userId : Id) : ChatRole :=
  if Nat.eqb (organizerId ev) userId then ORGANIZER
  else match findActiveTeamMember st eventId userId with
       | Some t => match tm_role t with
                   | CO_HOST | MANAGER => MODERATOR
                   | _ => MEMBER
                   end
       | None => MEMBER
       end.

(** [prisma.attendee.findFirst({ where: { order: { eventId, userId, status: 'CONFIRMED' } } })] *)
Definition hasConfirmedTicket (st : Store) (eventId userId : Id) : bool :=
  existsb (fun a => Nat.eqb (att_eventId a) eventId && Nat.eqb (att_userId a) userId
                    && match att_orderStatus a with CONFIRMED => true | _ => false end)
          (attendees st).

(** ** [getOrJoinChat] *)

Record ChatInfo := mkChatInfo {
  info_id : Id;
  info_eventId : Id;
  info_isActive : bool;
  info_slowMode : Z;
  info_membersOnly : bool;
  memberCount : nat;
  onlineCount : nat;
  userRole : ChatRole;
  info_isMuted : bool
}.

Inductive JoinReason := CHAT_DISABLED | NO_TICKET.

Record JoinResult := mkJoinResult {
  jr_chat : option ChatInfo;
  canJoin : bool;
  reason : option JoinReason
}.

(** [prisma.eventChat.create({ data: { eventId } })] with the column
    defaults of the migration. *)
Definition createChat (eventId : Id) : M EventChat :=
  let* ev := gets (fun st => findEvent st eventId) in
  let* dup := gets (fun st => findChatByEvent st eventId) in
  match ev, dup with
  | Some _, None =>
      let* id := fresh_id in
      let c := mkEventChat id eventId true 0 true in
      let* _ := modify (fun st => set_chats st (chats st ++ [c])) in
      ret c
  | _, _ => throw E_CONSTRAINT
  end.

(** The chat of the event, found or created, with its [event] and
    [_count.members] includes. *)
Definition loadChat (eventId : Id) : M (EventChat * Event * nat) :=
  let* found := gets (fun st => findChatByEvent st eventId) in
  let* chat := match found with
               | Some c => ret c
               | None => createChat eventId
               end in
  let* ev := gets (fun st => findEvent st eventId) in
  match ev with
  | Some e =>
      let* n := gets (fun st => countMembers st (chat_id chat)) in
      ret (chat, e, n)
  | None => throw E_CONSTRAINT
  end.

(** [formatChatInfo(chat, userRole, isMuted)] *)
Definition formatChatInfo (chat : EventChat) (count : nat) (role : ChatRole) (muted : bool) : ChatInfo :=
  mkChatInfo (chat_id chat) (chat_eventId chat) (isActive chat) (slowMode chat)
             (membersOnly chat) count 0 role muted.

(** [prisma.chatMember.create({ data: { chatId, userId, role } })]; the
    unique index on [(chatId, userId)] rejects a second row. *)
Definition createMember (chatId userId : Id) (role : ChatRole) (now : Time) : M ChatMember :=
  let* dup := gets (fun st => findMember st chatId userId) in
  match dup with
  | Some _ => throw E_CONSTRAINT
  | None =>
      let* id := fresh_id in
      let m := mkChatMember id chatId userId role false None now now in
      let* _ := modify (fun st => set_members st (members st ++ [m])) in
      ret m
  end.

Definition DAY_MS : Z := 24 * 60 * 60 * 1000.
Definition FIVE_MINUTES_MS : Z := 5 * 60 * 1000.

(** Members whose [lastSeenAt] is at least [since]. *)
Definition countOnline (st : Store) (chatId : Id) (since : Time) : nat :=
  length (filter (fun m => Nat.eqb (m_chatId m) chatId && (since <=? lastSeenAt m))
                 (members st)).

Definition getOrJoinChat (eventId userId : Id) (now : Time) : M JoinResult :=
  let* '(chat, ev, count) := loadChat eventId in
  let* userRole := gets (fun st => resolveRole st ev eventId userId) in
  let chatExpiry := endDate ev + DAY_MS in
  let isExpired := chatExpiry <? now in
  if negb (isActive chat) || isExpired then
    ret (mkJoinResult None false (Some CHAT_DISABLED))
  else
  let* ticketOk :=
    if membersOnly chat && ChatRole_eqb userRole MEMBER
    then gets (fun st => hasConfirmedTicket st eventId userId)
    else ret true in
  if negb ticketOk then
    ret (mkJoinResult (Some (formatChatInfo chat count userRole false)) false (Some NO_TICKET))
  else
  let* existing := gets (fun st => findMember st (chat_id chat) userId) in
  let* member := match existing with
                 | None => createMember (chat_id chat) userId userRole now
                 | Some m =>
                     let* _ := update_member (m_id m) (with_lastSeenAt now) in
                     ret m
                 end in
  let* online := gets (fun st => countOnline st (chat_id chat) (now - FIVE_MINUTES_MS)) in
  ret (mkJoinResult
         (Some (mkChatInfo (chat_id chat) (chat_eventId chat) (isActive chat)
                           (slowMode chat) (membersOnly chat) count online
                           userRole (isMuted member)))
         true None).

(** ** [getMessages] and [getPinnedMessages] *)

(** Insertion by [createdAt], newest first; ties keep storage order. *)
Fixpoint insert_desc (m : ChatMessage) (l : list ChatMessage) : list ChatMessage :=
  match l with
  | [] => [m]
  | x :: r => if createdAt x <? createdAt m then m :: l else x :: insert_desc m r
  end.

(** [orderBy: { createdAt: 'desc' }] *)
Definition sort_desc (l : list ChatMessage) : list ChatMessage :=
  fold_right insert_desc [] l.

(** Prisma's [take]: a negative [take] counts from the end of the ordered
    rows. *)
Definition take_rows {A} (n : Z) (l : list A) : list A :=
  if 0 <? n then firstn (Z.to_nat n) l
  else skipn (length l - Z.to_nat (- n)) l.

(** The [where] clause of the history query; a cursor that names no
    message leaves [createdAt: { lt: undefined }], which Prisma ignores. *)
Definition history_where (st : Store) (chatId : Id) (before : option Id) (m : ChatMessage) : bool :=
  Nat.eqb (msg_chatId m) chatId && negb (isDeleted m)
  && match before with
     | None => true
     | Some b => match findMessage st b with
                 | Some c => createdAt m <? createdAt c
                 | None => true
                 end
     end.

Definition getMessages (eventId userId : Id) (before : option Id) (limit : Z)
  : M (list ChatMessage * bool) :=
  let* chat := gets (fun st => findChatByEvent st eventId) in
  match chat with
  | None => throw E_CHAT_NOT_FOUND
  | Some chat =>
  let* member := gets (fun st => findMember st (chat_id chat) userId) in
  match member with
  | None => throw E_NOT_AUTHORIZED
  | Some _ =>
  let* msgs := gets (fun st =>
     take_rows (Z.min limit 100)
               (sort_desc (filter (history_where st (chat_id chat) before) (messages st)))) in
  let* hasMore := gets (fun st =>
     match last (map Some msgs) None with
     | Some oldest =>
         Nat.ltb 0 (length (filter (fun m => Nat.eqb (msg_chatId m) (chat_id chat)
                                             && negb (isDeleted m)
                                             && (createdAt m <? createdAt oldest))
                                   (messages st)))
     | None => false
     end) in
  ret (rev msgs, hasMore)
  end
  end.

Definition getPinnedMessages (eventId userId : Id) : M (list ChatMessage) :=
  let* chat := gets (fun st => findChatByEvent st eventId) in
  match chat with
  | None => throw E_CHAT_NOT_FOUND
  | Some chat =>
      gets (fun st => sort_desc (filter (fun m => Nat.eqb (msg_chatId m) (chat_id chat)
                                                  && isPinned m && negb (isDeleted m))
                                        (messages st)))
  end.

(** ** [sendMessage] *)

Definition MAX_MESSAGE_LENGTH : Z := 1000.

(** [Math.ceil(a / b)] for [b > 0]. *)
Definition ceil_div (a b : Z) : Z := - ((- a) / b).

(** The latest of a list of messages by [createdAt]; ties keep the first. *)
Definition latest (l : list ChatMessage) : option ChatMessage :=
  fold_left (fun acc m =>
               match acc with
               | None => Some m
               | Some a => if createdAt a <? createdAt m then Some m else Some a
               end) l None.

(** [prisma.chatMessage.findFirst({ where: { chatId, senderId }, orderBy: { createdAt: 'desc' } })] *)
Definition findLastMessageBy (st : Store) (chatId userId : Id) : option ChatMessage :=
  latest (filter (fun m => Nat.eqb (msg_chatId m) chatId && Nat.eqb (senderId m) userId)
                 (messages st)).

(** [prisma.chatMessage.create(...)]; the foreign key on [replyToId] only
    asks that the referenced message exists. *)
Definition createMessage (chatId userId : Id) (body : list N) (type : MessageType)
           (replyTo : option Id) (now : Time) : M ChatMessage :=
  let* target_ok := gets (fun st =>
     match replyTo with
     | None => true
     | Some r => match findMessage st r with Some _ => true | None => false end
     end) in
  if negb target_ok then throw E_CONSTRAINT
  else
  let* id := fresh_id in
  let m := mkChatMessage id chatId userId body type replyTo false false None now in
  let* _ := modify (fun st => set_messages st (messages st ++ [m])) in
  ret m.

(** The slow-mode check: elapsed milliseconds against [slowMode] seconds;
    [timeSince = elapsed / 1000] and the message carries
    [Math.ceil(chat.slowMode - timeSince)]. *)
Definition slowModeCheck (chat : EventChat) (member : ChatMember) (userId : Id) (now : Time) : M unit :=
  if (0 <? slowMode chat) && ChatRole_eqb (m_role member) MEMBER then
    let* last := gets (fun st => findLastMessageBy st (chat_id chat) userId) in
    match last with
    | Some lm =>
        let elapsed := now - createdAt lm in
        when (elapsed <? slowMode chat * 1000)
             (E_SLOW_MODE (ceil_div (slowMode chat * 1000 - elapsed) 1000))
    | None => ret tt
    end
  else ret tt.

Definition sendMessage (eventId userId : Id) (body : list N) (type : MessageType)
           (replyTo : option Id) (now : Time) : M ChatMessage :=
  let* _ := when (MAX_MESSAGE_LENGTH <? Z.of_nat (length body)) E_MESSAGE_TOO_LONG in
  let* chat := gets (fun st => findChatByEvent st eventId) in
  match chat with
  | None => throw E_CHAT_NOT_FOUND
  | Some chat =>
  let* _ := when (negb (isActive chat)) E_CHAT_DISABLED in
  let* member := gets (fun st => findMember st (chat_id chat) userId) in
  match member with
  | None => throw E_NOT_AUTHORIZED
  | Some member =>
  let permissions := ROLE_PERMISSIONS (m_role member) in
  let* _ := if isMuted member then
              match mutedUntil member with
              | None => throw E_USER_MUTED
              | Some u => if now <? u then throw E_USER_MUTED
                          else update_member (m_id member) (with_mute false None)
              end
            else ret tt in
  let* _ := when (MessageType_eqb type ANNOUNCEMENT && negb (canAnnounce permissions))
                 E_NOT_AUTHORIZED in
  let* _ := slowModeCheck chat member userId now in
  let* message := createMessage (chat_id chat) userId body type replyTo now in
  let* _ := update_member (m_id member) (with_lastSeenAt now) in
  ret message
  end
  end.

(** ** [moderateMessage] *)

(** The [action] of the request body; any other string is [ACT_OTHER]. *)
Inductive ModAction := ACT_DELETE | ACT_PIN | ACT_UNPIN | ACT_OTHER.

Inductive ModResult :=
| Deleted (messageId deletedBy_ : Id)
| PinChanged (messageId : Id) (action : ModAction) (pinned : bool).

Definition moderateMessage (eventId messageId userId : Id) (action : ModAction) : M ModResult :=
  let* chat := gets (fun st => findChatByEvent st eventId) in
  match chat with
  | None => throw E_CHAT_NOT_FOUND
  | Some chat =>
  let* member := gets (fun st => findMember st (chat_id chat) userId) in
  match member with
  | None => throw E_NOT_AUTHORIZED
  | Some member =>
  let* message := gets (fun st => findMessage st messageId) in
  match message with
  | None => throw E_MESSAGE_NOT_FOUND
  | Some message =>
  if negb (Nat.eqb (msg_chatId message) (chat_id chat)) then throw E_MESSAGE_NOT_FOUND
  else
  let permissions := ROLE_PERMISSIONS (m_role member) in
  match action with
  | ACT_DELETE =>
      let canDelete := if Nat.eqb (senderId message) userId
                       then canDeleteOwn permissions else canDeleteAny permissions in
      let* _ := when (negb canDelete) E_NOT_AUTHORIZED in
      let* _ := update_message messageId (with_deleted userId) in
      ret (Deleted messageId userId)
  | ACT_PIN | ACT_UNPIN =>
      let* _ := when (negb (canPin permissions)) E_NOT_AUTHORIZED in
      let pin := match action with ACT_PIN => true | _ => false end in
      let* _ := update_message messageId (with_pinned pin) in
      let* updated := gets (fun st => findMessage st messageId) in
      match updated with
      | Some u => ret (PinChanged messageId action (isPinned u))
      | None => throw E_CONSTRAINT
      end
  | ACT_OTHER => throw E_INVALID_ACTION
  end
  end
  end
  end.

(** ** [muteUser] *)

Record MuteResult := mkMuteResult {
  mr_userId : Id;
  mr_isMuted : bool;
  until : option Time
}.

(** The JS [Date] range: [new Date(t)] is an Invalid Date (TimeClip gives
    [NaN]) when [|t| > 8.64e15] milliseconds. *)
Definition MAX_DATE_MS : Z := 8640000000000000.

Definition valid_date (t : Time) : bool := Z.abs t <=? MAX_DATE_MS.

(** [durationMinutes] is the JSON number of the request body, here an
    integer (the controller only checks [typeof duration === 'number']).
    Below [2^53] the sum [Date.now() + durationMinutes * 60 * 1000] is
    exact; outside the [Date] range [mutedUntil] is an Invalid Date, which
    [prisma.chatMember.update] refuses (and [toISOString] would throw). *)
Definition muteUser (eventId targetUserId actorUserId : Id) (durationMinutes : Z) (now : Time)
  : M MuteResult :=
  let* chat := gets (fun st => findChatByEvent st eventId) in
  match chat with
  | None => throw E_CHAT_NOT_FOUND
  | Some chat =>
  let* actor := gets (fun st => findMember st (chat_id chat) actorUserId) in
  match actor with
  | None => throw E_NOT_AUTHORIZED
  | Some actor =>
  let permissions := ROLE_PERMISSIONS (m_role actor) in
  let* _ := when (negb (canMute permissions)) E_NOT_AUTHORIZED in
  let* target := gets (fun st => findMember st (chat_id chat) targetUserId) in
  match target with
  | None => throw E_USER_NOT_FOUND_IN_CHAT
  | Some target =>
  let* _ := when (roleOrder (m_role actor) <=? roleOrder (m_role target)) E_NOT_AUTHORIZED in
  if durationMinutes =? 0 then
    let* _ := update_member (m_id target) (with_mute false None) in
    ret (mkMuteResult targetUserId false None)
  else
    let mutedUntil_ := now + durationMinutes * 60 * 1000 in
    let* _ := when (negb (valid_date mutedUntil_)) E_INVALID_DATE in
    let* _ := update_member (m_id target) (with_mute true (Some mutedUntil_)) in
    ret (mkMuteResult targetUserId true (Some mutedUntil_))
  end
  end
  end.

(** ** [updateSettings] and [updateLastSeen] *)

(** The chat is read with its [event] include; the foreign key
    [EventChat.eventId] makes the event present. *)
Definition updateSettings (eventId userId : Id) (slowMode_ : option Z) (isActive_ : option bool)
  : M (Z * bool) :=
  let* chat := gets (fun st => findChatByEvent st eventId) in
  match chat with
  | None => throw E_CHAT_NOT_FOUND
  | Some chat =>
  let* ev := gets (fun st => findEvent st (chat_eventId chat)) in
  match ev with
  | None => throw E_CONSTRAINT
  | Some ev =>
  let* _ := if Nat.eqb (organizerId ev) userId then ret tt
            else
              let* member := gets (fun st => findMember st (chat_id chat) userId) in
              match member with
              | Some m => if ChatRole_eqb (m_role m) ORGANIZER then ret tt
                          else throw E_NOT_AUTHORIZED
              | None => throw E_NOT_AUTHORIZED
              end in
  let newSlowMode := match slowMode_ with Some s => s | None => slowMode chat end in
  let newIsActive := match isActive_ with Some b => b | None => isActive chat end in
  let* _ := modify (fun st => set_chats st
              (map (fun c => if Nat.eqb (chat_id c) (chat_id chat)
                             then mkEventChat (chat_id c) (chat_eventId c) newIsActive
                                              newSlowMode (membersOnly c)
                             else c) (chats st))) in
  ret (newSlowMode, newIsActive)
  end
  end.

(** [prisma.chatMember.updateMany({ where: { chatId, userId }, data: { lastSeenAt } })] *)
Definition updateLastSeen (eventId userId : Id) (now : Time) : M unit :=
  let* chat := gets (fun st => findChatByEvent st eventId) in
  match chat with
  | None => ret tt
  | Some chat =>
      modify (fun st => set_members st
        (map (fun m => if member_is (chat_id chat) userId m then with_lastSeenAt now m else m)
             (members st)))
  end.

(** ** [getMembers] *)

(** The fields of a listed member that come from the [ChatMember] row
    (the [user] include, name and avatar, is not modelled). *)
Record MemberView := mkMemberView {
  mv_id : Id;
  mv_userId : Id;
  mv_role : ChatRole;
  mv_isMuted : bool;
  mv_isOnline : bool;
  mv_joinedAt : Time
}.

(** [orderBy: { lastSeenAt: 'desc' }]; the order of ties is left to the
    database, here the later row first. *)
Fixpoint insert_seen_desc (m : ChatMember) (l : list ChatMember) : list ChatMember :=
  match l with
  | [] => [m]
  | x :: r => if lastSeenAt x <? lastSeenAt m then m :: l else x :: insert_seen_desc m r
  end.

Definition sort_seen_desc (l : list ChatMember) : list ChatMember :=
  fold_right insert_seen_desc [] l.

Definition memberView (fiveMinutesAgo : Time) (m : ChatMember) : MemberView :=
  mkMemberView (m_id m) (m_userId m) (m_role m) (isMuted m)
               (fiveMinutesAgo <=? lastSeenAt m) (joinedAt m).

(** [userId] is not read: the listing does not check membership. *)
Definition getMembers (eventId userId : Id) (onlineOnly : bool) (limit : Z) (now : Time)
  : M (list MemberView * nat * nat) :=
  let* chat := gets (fun st => findChatByEvent st eventId) in
  match chat with
  | None => throw E_CHAT_NOT_FOUND
  | Some chat =>
  let fiveMinutesAgo := now - FIVE_MINUTES_MS in
  let* total := gets (fun st => countMembers st (chat_id chat)) in
  let* onlineCount_ := gets (fun st => countOnline st (chat_id chat) fiveMinutesAgo) in
  let* rows := gets (fun st =>
     take_rows limit
       (sort_seen_desc
          (filter (fun m => Nat.eqb (m_chatId m) (chat_id chat)
                            && (negb onlineOnly || (fiveMinutesAgo <=? lastSeenAt m)))
                  (members st)))) in
  ret (map (memberView fiveMinutesAgo) rows, total, onlineCount_)
  end.

(** ** [getUserEventChats] *)

(** The fields of a chat preview computed from the chat tables (the event's
    title, date, location, image and organizer name, and the text preview
    of the last message, are not modelled). *)
Record ChatPreview := mkChatPreview {
  cp_id : Id;
  cp_eventId : Id;
  participantCount : nat;
  unreadCount : nat;
  cp_lastMessage : option ChatMessage;
  lastMessageTime : option Time;
  cp_userRole : ChatRole
}.

Definition findChatById (st : Store) (chatId : Id) : option EventChat :=
  find (fun c => Nat.eqb (chat_id c) chatId) (chats st).

(** The latest live message of the chat: [findFirst] with
    [orderBy: { createdAt: 'desc' }]. *)
Definition lastLiveMessage (st : Store) (chatId : Id) : option ChatMessage :=
  latest (filter (fun m => Nat.eqb (msg_chatId m) chatId && negb (isDeleted m)) (messages st)).

(** Messages of others, not deleted, created after the member's
    [lastSeenAt]. *)
Definition unread_where (chatId userId : Id) (seen : Time) (m : ChatMessage) : bool :=
  Nat.eqb (msg_chatId m) chatId && negb (isDeleted m) && (seen <? createdAt m)
  && negb (Nat.eqb (senderId m) userId).

(** The callback of [memberships.map]; the [chat] and [event] includes
    are required relations. *)
Definition chatPreview (userId : Id) (membership : ChatMember) : M ChatPreview :=
  let* chat := gets (fun st => findChatById st (m_chatId membership)) in
  match chat with
  | None => throw E_CONSTRAINT
  | Some chat =>
  let* ev := gets (fun st => findEvent st (chat_eventId chat)) in
  match ev with
  | None => throw E_CONSTRAINT
  | Some ev =>
  let* count := gets (fun st => countMembers st (chat_id chat)) in
  let* lastMessage := gets (fun st => lastLiveMessage st (chat_id chat)) in
  let* unread := gets (fun st =>
     length (filter (unread_where (chat_id chat) userId (lastSeenAt membership)) (messages st))) in
  ret (mkChatPreview (chat_id chat) (ev_id ev) count unread lastMessage
                     (option_map createdAt lastMessage) (m_role membership))
  end
  end.

(** [Promise.all(xs.map(f))]: the results in the order of [xs]; a
    rejection rejects the whole. *)
Fixpoint mapM {A B} (f : A -> M B) (l : list A) : M (list B) :=
  match l with
  | [] => ret []
  | x :: r => let* y := f x in let* ys := mapM f r in ret (y :: ys)
  end.

(** The comparator given to [chatPreviews.sort]. *)
Definition compare_previews (a b : ChatPreview) : Z :=
  match lastMessageTime a, lastMessageTime b with
  | None, None => 0
  | None, Some _ => 1
  | Some _, None => -1
  | Some ta, Some tb => tb - ta
  end.

(** [Array.prototype.sort] with a comparator, which is stable: an element
    is placed after every element that does not compare above it. *)
Fixpoint insert_by {A} (cmp : A -> A -> Z) (x : A) (l : list A) : list A :=
  match l with
  | [] => [x]
  | y :: r => if 0 <? cmp y x then x :: l else y :: insert_by cmp x r
  end.

Definition sort_by {A} (cmp : A -> A -> Z) (l : list A) : list A :=
  fold_left (fun acc x => insert_by cmp x acc) l [].

Definition getUserEventChats (userId : Id) : M (list ChatPreview) :=
  let* memberships := gets (fun st =>
     sort_seen_desc (filter (fun m => Nat.eqb (m_userId m) userId) (members st))) in
  let* chatPreviews := mapM (chatPreview userId) memberships in
  ret (sort_by compare_previews chatPreviews).

(** ** Error texts, HTTP statuses and socket error codes *)

(** [String.prototype.includes]. *)
Fixpoint includes (s p : String.string) : bool :=
  String.prefix p s || match s with
                       | String.EmptyString => false
                       | String.String _ s' => includes s' p
                       end.

(** A JavaScript integer in a template literal. *)
Definition show_int (n : Z) : String.string :=
  DecimalString.NilZero.string_of_int (Z.to_int n).

(** The [message] of the [Error] each failure throws: [CHAT_ERROR_CODES]
    and the literal messages of the service. A violated constraint carries
    the store's own text, which is not modelled. *)
Definition error_message (e : ChatError) : option String.string :=
  match e with
  | E_CHAT_NOT_FOUND => Some "Event chat does not exist"%string
  | E_NO_TICKET => Some "User must have ticket to join"%string
  | E_CHAT_DISABLED => Some "Chat is currently disabled"%string
  | E_USER_MUTED => Some "You are muted"%string
  | E_SLOW_MODE r =>
      Some (String.append "Please wait before sending another message: "%string
                          (String.append (show_int r) "s"%string))
  | E_MESSAGE_TOO_LONG => Some "Max 1000 characters"%string
  | E_NOT_AUTHORIZED => Some "You cannot perform this action"%string
  | E_MESSAGE_NOT_FOUND => Some "Message not found"%string
  | E_USER_NOT_FOUND_IN_CHAT => Some "User not found in chat"%string
  | E_INVALID_ACTION => Some "Invalid action"%string
  | E_CONSTRAINT => None
  | E_INVALID_DATE => None
  end.

(** [getErrorCode] of chat.socket.ts, used for [chat:error] after a failed
    [chat:message]. *)
Definition getErrorCode (message : String.string) : String.string :=
  if includes message "muted"%string then "USER_MUTED"%string
  else if includes message "wait"%string then "SLOW_MODE"%string
  else if includes message "Max"%string then "MESSAGE_TOO_LONG"%string
  else if includes message "cannot"%string then "NOT_AUTHORIZED"%string
  else if includes message "not found"%string then "NOT_FOUND"%string
  else "ERROR"%string.

(** The status [ChatController.sendMessage] answers a thrown error with. *)
Definition sendMessage_status (message : String.string) : Z :=
  if includes message "not found"%string then 404
  else if includes message "muted"%string || includes message "wait"%string then 429
  else if includes message "cannot"%string || includes message "Max"%string then 400
  else 500.

(** The status of [ChatController.getMessages], [moderateMessage],
    [muteUser] and [updateSettings] for a thrown error. *)
Definition moderation_status (message : String.string) : Z :=
  if includes message "not found"%string then 404
  else if includes message "cannot"%string then 403
  else 500.

(** The status a controller answers a failure with, and the [chat:error]
    code of the socket; [None] for a constraint violation, whose text is the
    store's. *)
Definition http_status (status_of : String.string -> Z) (e : ChatError) : option Z :=
  option_map status_of (error_message e).

(** [ChatController.moderateMessage]: an [action] outside
    [['delete', 'pin', 'unpin']] is answered 400 before the service is
    called; a success is answered 200, a thrown error by
    [moderation_status] ([None] for an error whose text is the store's). *)
Definition moderateMessage_http (eventId messageId userId : Id) (action : ModAction)
  (st : Store) : option Z * Store :=
  match action with
  | ACT_OTHER => (Some 400, st)
  | _ =>
      match moderateMessage eventId messageId userId action st with
      | (inr _, st') => (Some 200, st')
      | (inl e, st') => (http_status moderation_status e, st')
      end
  end.

Definition socket_code (e : ChatError) : option String.string :=
  option_map getErrorCode (error_message e).

(** [parseInt(req.query.limit) || dflt]: [None] is [NaN] (absent or not a
    number); [0] is falsy as well. *)
Definition query_limit (parsed : option Z) (dflt : Z) : Z :=
  match parsed with
  | Some n => if n =? 0 then dflt else n
  | None => dflt
  end.

(** ** Runs of the chat service *)

(** One call of a [ChatService] method; the remaining methods
    ([getMembers], [getUserEventChats]) only read. *)
Inductive ChatOp :=
| OpGetOrJoinChat (eventId userId : Id) (now : Time)
| OpGetMessages (eventId userId : Id) (before : option Id) (limit : Z)
| OpGetPinnedMessages (eventId userId : Id)
| OpSendMessage (eventId userId : Id) (body : list N) (type : MessageType)
                (replyTo : option Id) (now : Time)
| OpModerateMessage (eventId messageId userId : Id) (action : ModAction)
| OpMuteUser (eventId targetUserId actorUserId : Id) (durationMinutes : Z) (now : Time)
| OpUpdateSettings (eventId userId : Id) (slowMode_ : option Z) (isActive_ : option bool)
| OpUpdateLastSeen (eventId userId : Id) (now : Time).

(** The store after the call, whether it returned or threw. *)
Definition run_op (o : ChatOp) (st : Store) : Store :=
  match o with
  | OpGetOrJoinChat e u t => snd (getOrJoinChat e u t st)
  | OpGetMessages e u b l => snd (getMessages e u b l st)
  | OpGetPinnedMessages e u => snd (getPinnedMessages e u st)
  | OpSendMessage e u b ty r t => snd (sendMessage e u b ty r t st)
  | OpModerateMessage e mid u a => snd (moderateMessage e mid u a st)
  | OpMuteUser e tgt act d t => snd (muteUser e tgt act d t st)
  | OpUpdateSettings e u s a => snd (updateSettings e u s a st)
  | OpUpdateLastSeen e u t => snd (updateLastSeen e u t st)
  end.

Inductive reachable (st0 : Store) : Store -> Prop :=
| reach_init : reachable st0 st0
| reach_step (o : ChatOp) (st : Store) : reachable st0 st -> reachable st0 (run_op o st).

(** Every [replyToId] is absent or names a stored message: the foreign key
    [ChatMessage.replyToId] of the migration. *)
Definition replies_resolve (st : Store) : Prop :=
  forall m r, In m (messages st) -> replyToId m = Some r ->
  exists t, findMessage st r = Some t.

(** The reading of the specification: the target is a message of the
    same chat. *)
Definition replies_same_chat (st : Store) : Prop :=
  forall m r, In m (messages st) -> replyToId m = Some r ->
  exists t, findMessage st r = Some t /\ msg_chatId t = msg_chatId m.

Definition preserves_replies {A} (c : M A) : Prop :=
  forall st, replies_resolve st -> replies_resolve (snd (c st)).

(** ** Realtime gateway: rooms and connection tracking (chat.socket.ts) *)

Module Gateway.

(** A socket object with the [eventId] field the handlers set. *)
Record Conn := mkConn {
  sock_id : Id;
  sock_user : Id;
  sock_eventId : option Id
}.

Inductive RoomEvent :=
| EvJoined
| EvError
| EvMemberJoined (userId : Id)
| EvMemberLeft (userId : Id).

(** An emission: [socket.emit] to one connection, or [socket.to(room).emit]
    to the room's other connections; the room [chat:<eventId>] is keyed by
    its event. *)
Inductive Outbound :=
| ToSocket (sid : Id) (ev : RoomEvent)
| ToRoomExcept (room : Id) (sender : Id) (ev : RoomEvent).

(** [conns]: the socket objects; [connected]: the ids in
    [io.sockets.sockets]; [userSockets] and [roomOnlineUsers]: the two
    module-level maps, an absent key read as the empty set; [outbox]: the
    emissions so far, oldest first. *)
Record GW := mkGW {
  conns : list Conn;
  connected : list Id;
  userSockets : Id -> list Id;
  roomOnlineUsers : Id -> list Id;
  outbox : list Outbound
}.

Definition empty : GW := mkGW [] [] (fun _ => []) (fun _ => []) [].

Definition set_add (x : Id) (l : list Id) : list Id :=
  if existsb (Nat.eqb x) l then l else l ++ [x].

Definition set_delete (x : Id) (l : list Id) : list Id :=
  filter (fun y => negb (Nat.eqb x y)) l.

Definition upd (f : Id -> list Id) (k : Id) (v : list Id) : Id -> list Id :=
  fun k' => if Nat.eqb k' k then v else f k'.

Definition getConn (g : GW) (sid : Id) : option Conn :=
  find (fun c => Nat.eqb (sock_id c) sid) (conns g).

(** [io.sockets.sockets.get(sid)] *)
Definition ioGet (g : GW) (sid : Id) : option Conn :=
  if existsb (Nat.eqb sid) (connected g) then getConn g sid else None.

Definition set_eventId (sid : Id) (e : option Id) (g : GW) : GW :=
  mkGW (map (fun c => if Nat.eqb (sock_id c) sid then mkConn sid (sock_user c) e else c) (conns g))
       (connected g) (userSockets g) (roomOnlineUsers g) (outbox g).

Definition emit (o : Outbound) (g : GW) : GW :=
  mkGW (conns g) (connected g) (userSockets g) (roomOnlineUsers g) (outbox g ++ [o]).

Definition set_userSockets (f : Id -> list Id) (g : GW) : GW :=
  mkGW (conns g) (connected g) f (roomOnlineUsers g) (outbox g).

Definition set_roomOnline (f : Id -> list Id) (g : GW) : GW :=
  mkGW (conns g) (connected g) (userSockets g) f (outbox g).

(** [io.on('connection')] after the handshake: track the socket. *)
Definition connect (sid uid : Id) (g : GW) : GW :=
  mkGW (conns g ++ [mkConn sid uid None]) (connected g ++ [sid])
       (upd (userSockets g) uid (set_add sid (userSockets g uid)))
       (roomOnlineUsers g) (outbox g).

Definition option_eqb (a b : option Id) : bool :=
  match a, b with
  | Some x, Some y => Nat.eqb x y
  | None, None => true
  | _, _ => false
  end.

(** [leaveRoom(socket, io)] *)
Definition leaveRoom (sid : Id) (g : GW) : GW :=
  match getConn g sid with
  | None => g
  | Some s =>
      match sock_eventId s with
      | None => g
      | Some room =>
          let uid := sock_user s in
          let g1 := set_roomOnline
                      (upd (roomOnlineUsers g) room (set_delete uid (roomOnlineUsers g room))) g in
          let userSocketIds := userSockets g1 uid in
          let socketsInRoom :=
            filter (fun sid' => match ioGet g1 sid' with
                                | Some s' => option_eqb (sock_eventId s') (Some room)
                                | None => false
                                end) userSocketIds in
          let g2 := if Nat.leb (length socketsInRoom) 1
                    then emit (ToRoomExcept room sid (EvMemberLeft uid)) g1
                    else g1 in
          set_eventId sid None g2
      end
  end.

(** [socket.on('chat:join')]; [canJoin] is the answer of
    [ChatService.getOrJoinChat] for this user and event. *)
Definition join (sid room : Id) (canJoin_ : bool) (g : GW) : GW :=
  match getConn g sid with
  | None => g
  | Some s =>
      if negb canJoin_ then emit (ToSocket sid EvError) g
      else
        let g1 := match sock_eventId s with Some _ => leaveRoom sid g | None => g end in
        let g2 := set_eventId sid (Some room) g1 in
        let g3 := set_roomOnline
                    (upd (roomOnlineUsers g2) room (set_add (sock_user s) (roomOnlineUsers g2 room))) g2 in
        emit (ToRoomExcept room sid (EvMemberJoined (sock_user s)))
             (emit (ToSocket sid EvJoined) g3)
  end.

(** [socket.on('chat:leave')] *)
Definition leave (sid : Id) (g : GW) : GW := leaveRoom sid g.

(** [socket.on('disconnect')]: socket.io has already dropped the socket
    from [io.sockets.sockets]; the handler removes it from [userSockets]
    and then runs [leaveRoom]. *)
Definition disconnect (sid : Id) (g : GW) : GW :=
  match getConn g sid with
  | None => g
  | Some s =>
      let uid := sock_user s in
      let g0 := mkGW (conns g) (set_delete sid (connected g)) (userSockets g)
                     (roomOnlineUsers g) (outbox g) in
      let g1 := set_userSockets (upd (userSockets g0) uid (set_delete sid (userSockets g0 uid))) g0 in
      leaveRoom sid g1
  end.

(** Whether [member:left] for [uid] was broadcast to room [room]. *)
Definition member_left_sent (room uid : Id) (g : GW) : bool :=
  existsb (fun o => match o with
                    | ToRoomExcept r _ (EvMemberLeft u) => Nat.eqb r room && Nat.eqb u uid
                    | _ => false
                    end) (outbox g).

(** Live connections of [uid] currently in [room]. *)
Definition live_in_room (room uid : Id) (g : GW) : list Id :=
  map sock_id (filter (fun c => Nat.eqb (sock_user c) uid
                                && option_eqb (sock_eventId c) (Some room)
                                && existsb (Nat.eqb (sock_id c)) (connected g))
                      (conns g)).

End Gateway.

(** ** Concrete stores for the examples

    Event [1] organised by user [100], ending at [1000000]; user [3] is an
    active co-host of it; users [4] and [5] hold no ticket, user [6] a
    confirmed one. *)

Definition demo_store : Store :=
  mkStore [mkEvent 1 100 1000000]
          [mkTeamMember 1 (Some 3%nat) CO_HOST ACTIVE]
          [mkAttendee 1 6 CONFIRMED]
          [] [] [] 0.

(** The same event with its chat [10] already open, in slow mode (30 s):
    organizer [100], moderator [3] and plain members [4] and [6], and two
    messages: [20] by user [4] at [500000], deleted by moderator [3], and
    [21] by user [6] at [400000]; chat [11] of another event [2] holds
    message [22]. *)

Definition demo_chat : EventChat := mkEventChat 10 1 true 30 true.

Definition demo_chat2 : EventChat := mkEventChat 11 2 true 0 true.

Definition demo_live : Store :=
  mkStore [mkEvent 1 100 1000000; mkEvent 2 100 1000000]
          [mkTeamMember 1 (Some 3%nat) CO_HOST ACTIVE]
          [mkAttendee 1 6 CONFIRMED]
          [demo_chat; demo_chat2]
          [mkChatMember 30 10 100 ORGANIZER false None 0 0;
           mkChatMember 31 10 3 MODERATOR false None 0 0;
           mkChatMember 32 10 4 MEMBER false None 0 0;
           mkChatMember 33 10 6 MEMBER false None 0 0;
           mkChatMember 34 11 6 MEMBER false None 0 0]
          [mkChatMessage 20 10 4 [104%N; 105%N] TEXT None false true (Some 3%nat) 500000;
           mkChatMessage 21 10 6 [104%N] TEXT None false false None 400000;
           mkChatMessage 22 11 6 [104%N] TEXT None false false None 400000]
          40.

(** * Properties *)

(** ** Monad reasoning *)

Lemma bind_inr {A B} (m : M A) (f : A -> M B) st a st' :
  m st = (inr a, st') -> bind m f st = f a st'.
Proof. intros H. unfold bind. now rewrite H. Qed.

Lemma bind_inl {A B} (m : M A) (f : A -> M B) st e st' :
  m st = (inl e, st') -> bind m f st = (inl e, st').
Proof. intros H. unfold bind. now rewrite H. Qed.

(** A computation that never raises the error [e]. *)
Definition never_throws {A} (e : ChatError) (m : M A) : Prop :=
  forall st, fst (m st) <> inl e.

Section NeverThrows.
Variable e : ChatError.

Lemma nt_ret {A} (a : A) : never_throws e (ret a).
Proof. intros st; discriminate. Qed.

Lemma nt_gets {A} (f : Store -> A) : never_throws e (gets f).
Proof. intros st; discriminate. Qed.

Lemma nt_modify f : never_throws e (modify f).
Proof. intros st; discriminate. Qed.

Lemma nt_fresh : never_throws e fresh_id.
Proof. intros st; discriminate. Qed.

Lemma nt_throw {A} e' : e' <> e -> never_throws e (@throw A e').
Proof. intros Hne st; simpl; congruence. Qed.

Lemma nt_when b e' : e' <> e -> never_throws e (when b e').
Proof. intros Hne st; destruct b; simpl; congruence. Qed.

Lemma nt_bind {A B} (m : M A) (f : A -> M B) :
  never_throws e m -> (forall a, never_throws e (f a)) -> never_throws e (bind m f).
Proof.
  intros Hm Hf st; unfold bind.
  specialize (Hm st); destruct (m st) as [[e'|a] st']; simpl in *.
  - intros Heq; apply Hm; congruence.
  - apply Hf.
Qed.

Lemma nt_update_member id f : never_throws e (update_member id f).
Proof. apply nt_modify. Qed.

Lemma nt_update_message id f : never_throws e (update_message id f).
Proof. apply nt_modify. Qed.

End NeverThrows.

Create HintDb nt.
#[export] Hint Resolve nt_ret nt_gets nt_modify nt_fresh nt_update_member nt_update_message : nt.

Ltac nt_solve :=
  repeat match goal with
  | |- never_throws _ (bind _ _) => apply nt_bind; [| intro]
  | |- never_throws _ (when _ _) => apply nt_when; discriminate
  | |- never_throws _ (throw _) => apply nt_throw; discriminate
  | |- never_throws _ (match ?x with _ => _ end) => destruct x
  | |- never_throws _ (if ?b then _ else _) => destruct b
  | |- never_throws _ (let '(_, _) := ?p in _) => destruct p
  | |- never_throws _ _ => solve [eauto with nt]
  | |- never_throws _ ?c => progress unfold c
  end.

Lemma createMessage_never_too_long chatId userId body type replyTo now :
  never_throws E_MESSAGE_TOO_LONG (createMessage chatId userId body type replyTo now).
Proof. unfold createMessage. nt_solve. Qed.

Lemma slowModeCheck_never_too_long chat member userId now :
  never_throws E_MESSAGE_TOO_LONG (slowModeCheck chat member userId now).
Proof. unfold slowModeCheck. nt_solve. Qed.

#[export] Hint Resolve createMessage_never_too_long slowModeCheck_never_too_long : nt.

(** ** getOrJoinChat: the activity window *)

(** C1: whenever the chat that [getOrJoinChat] loads (found or freshly
    created) is inactive, or the current time is past the event's end plus
    24 hours, the call returns [{ chat: null, canJoin: false, reason:
    'CHAT_DISABLED' }] and writes nothing beyond loading the chat; the
    caller (hence the role resolved for them, organizer, moderator or
    member) plays no part. *)
Theorem getOrJoinChat_disabled_any_role :
  forall (eventId userId : Id) (now : Time) (st st1 : Store)
         (chat : EventChat) (ev : Event) (count : nat),
    loadChat eventId st = (inr (chat, ev, count), st1) ->
    (isActive chat = false \/ endDate ev + DAY_MS < now) ->
    getOrJoinChat eventId userId now st
    = (inr (mkJoinResult None false (Some CHAT_DISABLED)), st1).
Proof.
  intros eventId userId now st st1 chat ev count Hload Hoff.
  unfold getOrJoinChat. rewrite (bind_inr _ _ _ _ _ Hload).
  unfold bind, gets.
  destruct Hoff as [Hin | Hexp].
  - now rewrite Hin.
  - apply Z.ltb_lt in Hexp. rewrite Hexp, orb_true_r. reflexivity.
Qed.

(** ** sendMessage: the length precondition *)

(** C3: content longer than 1000 UTF-16 code units is rejected with
    [MESSAGE_TOO_LONG] before any read or write, so the store is returned
    unchanged (no message, no last-seen or mute update); content of at most
    1000 never yields [MESSAGE_TOO_LONG]. *)
Theorem sendMessage_length_precondition :
  forall (eventId userId : Id) (body : list N) (type : MessageType)
         (replyTo : option Id) (now : Time) (st : Store),
    (1000 < Z.of_nat (length body) ->
     sendMessage eventId userId body type replyTo now st = (inl E_MESSAGE_TOO_LONG, st))
    /\ (Z.of_nat (length body) <= 1000 ->
        fst (sendMessage eventId userId body type replyTo now st) <> inl E_MESSAGE_TOO_LONG).
Proof.
  intros eventId userId body type replyTo now st; split; intros Hlen.
  - unfold sendMessage, bind, when, MAX_MESSAGE_LENGTH.
    apply Z.ltb_lt in Hlen. now rewrite Hlen.
  - revert st. unfold sendMessage.
    apply nt_bind.
    + unfold when, MAX_MESSAGE_LENGTH.
      apply Z.ltb_ge in Hlen. rewrite Hlen. apply nt_ret.
    + intros []. nt_solve.
Qed.

(** ** getOrJoinChat: the ticket gate *)

Ltac step_join Hload Hact Hwin :=
  unfold getOrJoinChat; rewrite (bind_inr _ _ _ _ _ Hload);
  unfold bind at 1, gets at 1;
  rewrite Hact; apply Z.ltb_ge in Hwin; rewrite Hwin; simpl negb; cbv iota beta.

(** C2: in a joinable members-only chat, a caller whose resolved role is
    plain member and who holds no confirmed ticket gets [canJoin = false]
    with reason [NO_TICKET] and the chat info (not [null]), and nothing is
    written; a caller resolved as organizer or moderator is admitted
    ([canJoin = true]) whatever the ticket table holds. *)
Theorem getOrJoinChat_ticket_gate :
  forall (eventId userId : Id) (now : Time) (st st1 : Store)
         (chat : EventChat) (ev : Event) (count : nat),
    loadChat eventId st = (inr (chat, ev, count), st1) ->
    isActive chat = true ->
    now <= endDate ev + DAY_MS ->
    membersOnly chat = true ->
    (resolveRole st1 ev eventId userId = MEMBER ->
     hasConfirmedTicket st1 eventId userId = false ->
     getOrJoinChat eventId userId now st
     = (inr (mkJoinResult (Some (formatChatInfo chat count MEMBER false)) false (Some NO_TICKET)), st1))
    /\ (resolveRole st1 ev eventId userId <> MEMBER ->
        exists (info : ChatInfo) (st2 : Store),
          getOrJoinChat eventId userId now st = (inr (mkJoinResult (Some info) true None), st2)).
Proof.
  intros eventId userId now st st1 chat ev count Hload Hact Hwin Hmo.
  step_join Hload Hact Hwin. rewrite Hmo. split.
  - intros Hr Ht. rewrite Hr. simpl. unfold bind, gets. now rewrite Ht.
  - intros Hrole.
    destruct (resolveRole st1 ev eventId userId) eqn:Hr; [congruence | |]; simpl;
      destruct (findMember st1 (chat_id chat) userId) eqn:Hm; simpl;
      unfold createMember, update_member, fresh_id, bind, ret, gets, modify; simpl;
      rewrite ?Hr; simpl; rewrite ?Hm; simpl; rewrite ?Hm; eauto.
Qed.

(** ** Lists *)

Lemma find_hd_filter {A} (f : A -> bool) (l : list A) :
  find f l = hd_error (filter f l).
Proof. induction l as [|x l IH]; simpl; [reflexivity|]. destruct (f x); auto. Qed.

Lemma find_app {A} (f : A -> bool) (l l' : list A) :
  find f (l ++ l') = match find f l with Some x => Some x | None => find f l' end.
Proof. induction l as [|x l IH]; simpl; [reflexivity|]. destruct (f x); auto. Qed.

Lemma filter_map_same {A} (f : A -> bool) (g : A -> A) (l : list A) :
  (forall x, f (g x) = f x) -> filter f (map g l) = map g (filter f l).
Proof.
  intros Hg. induction l as [|x l IH]; simpl; [reflexivity|].
  rewrite Hg. destruct (f x); simpl; now rewrite IH.
Qed.

Lemma find_none_filter {A} (f : A -> bool) (l : list A) :
  find f l = None -> filter f l = [].
Proof.
  rewrite find_hd_filter. destruct (filter f l); simpl; congruence.
Qed.

Lemma find_some_filter_single {A} (f : A -> bool) (l : list A) x :
  (length (filter f l) <= 1)%nat -> find f l = Some x -> filter f l = [x].
Proof.
  rewrite find_hd_filter. destruct (filter f l) as [|y [|z r]]; simpl;
    intros Hl Hx; try discriminate; [now inversion Hx | lia].
Qed.

(** ** The membership table under getOrJoinChat *)

(** The unique index [ChatMember(chatId, userId)]. *)
Definition members_unique (st : Store) : Prop :=
  forall chatId userId, (length (member_rows st chatId userId) <= 1)%nat.

Lemma loadChat_spec eventId st chat ev n stL :
  loadChat eventId st = (inr (chat, ev, n), stL) ->
  findChatByEvent stL eventId = Some chat /\ members stL = members st
  /\ events stL = events st /\ findEvent st eventId = Some ev.
Proof.
  intros H.
  unfold loadChat, createChat, fresh_id, bind, gets, ret, modify, throw in H.
  destruct (findChatByEvent st eventId) eqn:Hf; simpl in H.
  - destruct (findEvent st eventId) eqn:He; inversion H; subst; auto.
  - destruct (findEvent st eventId) eqn:He; simpl in H; [|discriminate].
    rewrite Hf in H. simpl in H. unfold findEvent in He, H. simpl in H. rewrite He in H.
    inversion H; subst; clear H. simpl. repeat split; auto.
    unfold findChatByEvent in *. simpl. rewrite find_app, Hf. simpl.
    now rewrite Nat.eqb_refl.
Qed.

Lemma loadChat_found eventId st chat ev :
  findChatByEvent st eventId = Some chat -> findEvent st eventId = Some ev ->
  loadChat eventId st = (inr (chat, ev, countMembers st (chat_id chat)), st).
Proof.
  intros Hc He. unfold loadChat, bind, gets, ret. now rewrite Hc, He.
Qed.

Lemma getOrJoinChat_after_load eventId userId now st chat ev n stL :
  loadChat eventId st = (inr (chat, ev, n), stL) ->
  exists r st', getOrJoinChat eventId userId now st = (inr r, st').
Proof.
  intros HL.
  unfold getOrJoinChat, createMember, update_member, fresh_id, bind, ret, gets, modify, throw.
  rewrite HL. simpl.
  repeat (match goal with
          | |- context [if ?b then _ else _] => destruct b eqn:?
          | |- context [match ?x with Some _ => _ | None => _ end] => destruct x eqn:?
          end; simpl); first [do 2 eexists; reflexivity | exfalso; congruence].
Qed.

Lemma getOrJoinChat_members eventId userId now st r st' :
  getOrJoinChat eventId userId now st = (inr r, st') ->
  exists chat ev n stL,
    loadChat eventId st = (inr (chat, ev, n), stL) /\
    chats st' = chats stL /\ events st' = events stL /\
    ((canJoin r = false /\ st' = stL) \/
     (canJoin r = true /\
      ((findMember stL (chat_id chat) userId = None /\
        exists m, members st' = members stL ++ [m] /\ member_is (chat_id chat) userId m = true)
       \/ (exists m, findMember stL (chat_id chat) userId = Some m /\
           members st' = map (fun x => if Nat.eqb (m_id x) (m_id m) then with_lastSeenAt now x else x)
                             (members stL))))).
Proof.
  intros H.
  destruct (loadChat eventId st) as [[e | [[chat ev] n]] stL] eqn:HL.
  { unfold getOrJoinChat, bind at 1 in H. rewrite HL in H. discriminate. }
  exists chat, ev, n, stL. split; [reflexivity|].
  unfold getOrJoinChat, createMember, update_member, fresh_id, bind, ret, gets, modify, throw in H.
  rewrite HL in H. simpl in H.
  repeat (match type of H with
          | context [if ?b then _ else _] => destruct b eqn:?
          | context [match ?x with Some _ => _ | None => _ end] => destruct x eqn:?
          end; simpl in H; try discriminate).
  all: inversion H; subst; clear H; simpl; split; [reflexivity|]; split; [reflexivity|];
    first [ left; split; reflexivity
          | right; split; [reflexivity|];
            first [ right; eexists; split; reflexivity
                  | left; split; [reflexivity|]; eexists; split;
                    [reflexivity | unfold member_is; simpl; now rewrite !Nat.eqb_refl] ] ].
Qed.

Lemma member_rows_bump st stL chatId userId m now :
  members st = map (fun x => if Nat.eqb (m_id x) (m_id m) then with_lastSeenAt now x else x)
                   (members stL) ->
  member_rows stL chatId userId = [m] ->
  member_rows st chatId userId = [with_lastSeenAt now m].
Proof.
  intros Hst Hrows. unfold member_rows in *. rewrite Hst, filter_map_same, Hrows.
  - simpl. now rewrite Nat.eqb_refl.
  - intros x. destruct (Nat.eqb (m_id x) (m_id m)); reflexivity.
Qed.

(** C4, counterexample: user [4] holds no ticket for the members-only chat
    of event [1]; both calls refuse with [NO_TICKET], and after them the
    pair (chat [0], user [4]) has no membership row, not exactly one. *)
Lemma getOrJoinChat_twice_refused_no_row :
  fst (getOrJoinChat 1 4 500 demo_store)
  = inr (mkJoinResult (Some (formatChatInfo (mkEventChat 0 1 true 0 true) 0 MEMBER false))
                      false (Some NO_TICKET))
  /\ fst (getOrJoinChat 1 4 600 (snd (getOrJoinChat 1 4 500 demo_store)))
     = inr (mkJoinResult (Some (formatChatInfo (mkEventChat 0 1 true 0 true) 0 MEMBER false))
                         false (Some NO_TICKET))
  /\ findChatByEvent (snd (getOrJoinChat 1 4 600 (snd (getOrJoinChat 1 4 500 demo_store)))) 1
     = Some (mkEventChat 0 1 true 0 true)
  /\ ~ (exists m, member_rows (snd (getOrJoinChat 1 4 600 (snd (getOrJoinChat 1 4 500 demo_store)))) 0 4 = [m]).
Proof.
  split; [vm_compute; reflexivity|].
  split; [vm_compute; reflexivity|].
  split; [vm_compute; reflexivity|].
  intros [m Hm]. vm_compute in Hm. discriminate.
Qed.

(** C4 (amended): once a call has admitted the user ([canJoin = true]),
    a second call for the same event and user, at any later time and with
    nothing in between, finds that membership instead of creating one:
    the pair (chat, user) has exactly one row after each call, the same row
    (same id, role, mute state, join time), the second call at most moving
    its [lastSeenAt] to the new time, and the table does not grow.  The
    store satisfies the unique index on [(chatId, userId)].  A call that
    refuses the user ([canJoin = false]: [CHAT_DISABLED] or [NO_TICKET])
    leaves the membership table as it was: it creates no row, and it
    neither removes nor touches a row the pair already holds. *)
Theorem getOrJoinChat_rejoin_same_membership :
  (forall (eventId userId : Id) (now1 now2 : Time) (st st1 st2 : Store)
         (r1 : JoinResult) (r2 : ChatError + JoinResult),
    members_unique st ->
    getOrJoinChat eventId userId now1 st = (inr r1, st1) ->
    canJoin r1 = true ->
    getOrJoinChat eventId userId now2 st1 = (r2, st2) ->
    exists (chat : EventChat) (m : ChatMember),
      findChatByEvent st1 eventId = Some chat /\
      findChatByEvent st2 eventId = Some chat /\
      member_rows st1 (chat_id chat) userId = [m] /\
      (member_rows st2 (chat_id chat) userId = [m]
       \/ member_rows st2 (chat_id chat) userId = [with_lastSeenAt now2 m]) /\
      length (members st2) = length (members st1))
  /\ (forall (eventId userId : Id) (now : Time) (st st' : Store) (r : JoinResult),
    getOrJoinChat eventId userId now st = (inr r, st') ->
    canJoin r = false ->
    members st' = members st).
Proof.
  split.
  2:{ intros eventId userId now st st' r H Hj.
      destruct (getOrJoinChat_members _ _ _ _ _ _ H)
        as (chat & ev & n & stL & HL & _ & _ & [[_ ->] | [Ht _]]); [|congruence].
      destruct (loadChat_spec _ _ _ _ _ _ HL) as (_ & HmL & _). exact HmL. }
  intros eventId userId now1 now2 st st1 st2 r1 r2 Huniq H1 Hj H2.
  destruct (getOrJoinChat_members _ _ _ _ _ _ H1)
    as (chat & ev & n & stL & HL & Hch1 & Hev1 & [[Hf _] | [_ Hcase]]); [congruence|].
  destruct (loadChat_spec _ _ _ _ _ _ HL) as (HcL & HmL & HeL & He).
  assert (Hc1 : findChatByEvent st1 eventId = Some chat)
    by (unfold findChatByEvent in *; rewrite Hch1; exact HcL).
  assert (He1 : findEvent st1 eventId = Some ev)
    by (unfold findEvent in *; rewrite Hev1, HeL; exact He).
  assert (Hrows1 : exists m, member_rows st1 (chat_id chat) userId = [m]).
  { destruct Hcase as [[Hnone (m & Hm & Hmi)] | (m & Hsome & Hm)].
    - exists m. unfold member_rows. rewrite Hm, filter_app.
      unfold findMember in Hnone. rewrite (find_none_filter _ _ Hnone). simpl.
      now rewrite Hmi.
    - exists (with_lastSeenAt now1 m). apply (member_rows_bump _ stL _ _ _ _ Hm).
      unfold member_rows. apply find_some_filter_single; [| exact Hsome].
      specialize (Huniq (chat_id chat) userId). unfold member_rows in Huniq.
      now rewrite HmL. }
  destruct Hrows1 as [m1 Hr1].
  exists chat, m1.
  pose proof (loadChat_found _ _ _ _ Hc1 He1) as HL2.
  destruct (getOrJoinChat_after_load eventId userId now2 _ _ _ _ _ HL2) as (r2' & st2' & H2').
  rewrite H2' in H2. injection H2 as Hr2 Hst2. subst r2 st2.
  destruct (getOrJoinChat_members _ _ _ _ _ _ H2')
    as (chat' & ev' & n' & stL' & HL' & Hch2 & Hev2 & Hcase2).
  rewrite HL2 in HL'. injection HL' as <- <- <- <-.
  assert (Hc2 : findChatByEvent st2' eventId = Some chat)
    by (unfold findChatByEvent in *; rewrite Hch2; exact Hc1).
  split; [exact Hc1|]. split; [exact Hc2|]. split; [exact Hr1|].
  destruct Hcase2 as [[_ ->] | [_ [[Hnone _] | (m & Hsome & Hm)]]].
  - split; [left; exact Hr1 | reflexivity].
  - exfalso. unfold findMember in Hnone. apply find_none_filter in Hnone.
    unfold member_rows in Hr1. congruence.
  - assert (m = m1) as ->.
    { unfold findMember in Hsome. rewrite find_hd_filter in Hsome.
      unfold member_rows in Hr1. rewrite Hr1 in Hsome. simpl in Hsome. congruence. }
    split; [right; exact (member_rows_bump _ _ _ _ _ _ Hm Hr1) | rewrite Hm; apply length_map].
Qed.

(** ** Witnesses for C1, C2 and C4 *)

(** The organizer of event [1], a day and a millisecond after its end:
    the freshly created chat is disabled for them too. *)
Lemma getOrJoinChat_disabled_any_role_witness :
  getOrJoinChat 1 100 (1000000 + DAY_MS + 1) demo_store
  = (inr (mkJoinResult None false (Some CHAT_DISABLED)), snd (loadChat 1 demo_store)).
Proof.
  apply (getOrJoinChat_disabled_any_role 1 100 (1000000 + DAY_MS + 1) demo_store
           (snd (loadChat 1 demo_store)) (mkEventChat 0 1 true 0 true)
           (mkEvent 1 100 1000000) 0).
  - vm_compute. reflexivity.
  - right. simpl. lia.
Defined.

(** User [4] (no ticket) is refused with [NO_TICKET]; co-host [3] is
    admitted without a ticket. *)
Lemma getOrJoinChat_ticket_gate_witness :
  getOrJoinChat 1 4 500 demo_store
  = (inr (mkJoinResult (Some (formatChatInfo (mkEventChat 0 1 true 0 true) 0 MEMBER false))
                       false (Some NO_TICKET)), snd (loadChat 1 demo_store))
  /\ exists (info : ChatInfo) (st2 : Store),
       getOrJoinChat 1 3 500 demo_store = (inr (mkJoinResult (Some info) true None), st2).
Proof.
  split.
  - apply (proj1 (getOrJoinChat_ticket_gate 1 4 500 demo_store (snd (loadChat 1 demo_store))
                    (mkEventChat 0 1 true 0 true) (mkEvent 1 100 1000000) 0
                    ltac:(vm_compute; reflexivity) eq_refl
                    ltac:(simpl; unfold DAY_MS; lia) eq_refl));
      vm_compute; reflexivity.
  - apply (proj2 (getOrJoinChat_ticket_gate 1 3 500 demo_store (snd (loadChat 1 demo_store))
                    (mkEventChat 0 1 true 0 true) (mkEvent 1 100 1000000) 0
                    ltac:(vm_compute; reflexivity) eq_refl
                    ltac:(simpl; unfold DAY_MS; lia) eq_refl)).
    vm_compute. discriminate.
Defined.

(** Co-host [3] joins event [1] at [500] and calls again at [600]; user
    [4], without a ticket, is refused and the membership table is left as
    it was. *)
Lemma getOrJoinChat_rejoin_same_membership_witness :
  members (snd (getOrJoinChat 1 4 500 demo_store)) = members demo_store /\
  exists (chat : EventChat) (m : ChatMember),
    findChatByEvent (snd (getOrJoinChat 1 3 500 demo_store)) 1 = Some chat /\
    findChatByEvent (snd (getOrJoinChat 1 3 600 (snd (getOrJoinChat 1 3 500 demo_store)))) 1
      = Some chat /\
    member_rows (snd (getOrJoinChat 1 3 500 demo_store)) (chat_id chat) 3 = [m] /\
    (member_rows (snd (getOrJoinChat 1 3 600 (snd (getOrJoinChat 1 3 500 demo_store))))
                 (chat_id chat) 3 = [m]
     \/ member_rows (snd (getOrJoinChat 1 3 600 (snd (getOrJoinChat 1 3 500 demo_store))))
                    (chat_id chat) 3 = [with_lastSeenAt 600 m]) /\
    length (members (snd (getOrJoinChat 1 3 600 (snd (getOrJoinChat 1 3 500 demo_store)))))
    = length (members (snd (getOrJoinChat 1 3 500 demo_store))).
Proof.
  destruct getOrJoinChat_rejoin_same_membership as [Hrejoin Hrefused].
  split.
  { apply (Hrefused 1%nat 4%nat 500 demo_store (snd (getOrJoinChat 1 4 500 demo_store))
             (mkJoinResult (Some (formatChatInfo (mkEventChat 0 1 true 0 true) 0 MEMBER false))
                           false (Some NO_TICKET)));
      [vm_compute; reflexivity | reflexivity]. }
  apply (Hrejoin 1%nat 3%nat 500 600 demo_store
           (snd (getOrJoinChat 1 3 500 demo_store))
           (snd (getOrJoinChat 1 3 600 (snd (getOrJoinChat 1 3 500 demo_store))))
           (mkJoinResult (Some (mkChatInfo 0 1 true 0 true 0 1 MODERATOR false)) true None)
           (fst (getOrJoinChat 1 3 600 (snd (getOrJoinChat 1 3 500 demo_store))))).
  - unfold members_unique, member_rows. simpl. lia.
  - vm_compute. reflexivity.
  - reflexivity.
  - vm_compute. reflexivity.
Defined.

(** ** sendMessage: the checks before slow mode *)

(** The store after the mute check of [sendMessage] when it lets the
    sender through: an expired mute is cleared. *)
Definition after_mute_check (member : ChatMember) (st : Store) : Store :=
  if isMuted member then snd (update_member (m_id member) (with_mute false None) st) else st.

(** The earlier checks of [sendMessage] pass: length, chat found and
    active, sender a member, no mute in force, announcement allowed. *)
Definition earlier_checks_pass (st : Store) (eventId userId : Id) (body : list N)
           (type : MessageType) (now : Time) (chat : EventChat) (member : ChatMember) : Prop :=
  Z.of_nat (length body) <= 1000 /\
  findChatByEvent st eventId = Some chat /\
  isActive chat = true /\
  findMember st (chat_id chat) userId = Some member /\
  (isMuted member = false \/ exists u, mutedUntil member = Some u /\ u <= now) /\
  (type = ANNOUNCEMENT -> m_role member = ORGANIZER).

Lemma sendMessage_prefix eventId userId body type replyTo now st chat member :
  earlier_checks_pass st eventId userId body type now chat member ->
  sendMessage eventId userId body type replyTo now st
  = bind (slowModeCheck chat member userId now)
         (fun _ => let* message := createMessage (chat_id chat) userId body type replyTo now in
                   let* _ := update_member (m_id member) (with_lastSeenAt now) in
                   ret message)
         (after_mute_check member st).
Proof.
  intros (Hlen & Hc & Hact & Hm & Hmute & Hann).
  unfold sendMessage, after_mute_check, update_member, modify, bind, when, ret, gets, throw,
    MAX_MESSAGE_LENGTH.
  apply Z.ltb_ge in Hlen. rewrite Hlen. simpl.
  rewrite Hc. simpl. rewrite Hact. simpl. rewrite Hm.
  destruct Hmute as [Hnm | (u & Hu & Hle)].
  - rewrite Hnm. destruct type; simpl; try reflexivity.
    rewrite (Hann eq_refl). reflexivity.
  - destruct (isMuted member).
    + rewrite Hu. apply Z.ltb_ge in Hle. rewrite Hle.
      destruct type; simpl; try reflexivity.
      rewrite (Hann eq_refl). reflexivity.
    + destruct type; simpl; try reflexivity.
      rewrite (Hann eq_refl). reflexivity.
Qed.

Lemma find_map_same {A} (f : A -> bool) (g : A -> A) (l : list A) :
  (forall x, f (g x) = f x) -> find f (map g l) = option_map g (find f l).
Proof.
  intros Hg. induction l as [|x l IH]; simpl; [reflexivity|].
  rewrite Hg. destruct (f x); auto.
Qed.

Lemma after_mute_check_messages member st :
  messages (after_mute_check member st) = messages st
  /\ chats (after_mute_check member st) = chats st
  /\ next_id (after_mute_check member st) = next_id st.
Proof. unfold after_mute_check. destruct (isMuted member); simpl; auto. Qed.


(** A plain member inside the slow-mode window is refused with
    [SLOW_MODE]; only the clearing of an expired mute is kept. *)
Lemma sendMessage_slow_mode_reject eventId userId body type replyTo now st chat member lm :
  earlier_checks_pass st eventId userId body type now chat member ->
  0 < slowMode chat ->
  m_role member = MEMBER ->
  findLastMessageBy st (chat_id chat) userId = Some lm ->
  now - createdAt lm < slowMode chat * 1000 ->
  sendMessage eventId userId body type replyTo now st
  = (inl (E_SLOW_MODE (ceil_div (slowMode chat * 1000 - (now - createdAt lm)) 1000)),
     after_mute_check member st).
Proof.
  intros Hpre Hslow Hrole Hlast Hwin.
  rewrite (sendMessage_prefix _ _ _ _ _ _ _ _ _ Hpre).
  unfold slowModeCheck, bind, gets, when, throw.
  apply Z.ltb_lt in Hslow. rewrite Hslow, Hrole. simpl.
  assert (Hl : findLastMessageBy (after_mute_check member st) (chat_id chat) userId = Some lm).
  { unfold findLastMessageBy. rewrite (proj1 (after_mute_check_messages member st)). exact Hlast. }
  rewrite Hl. apply Z.ltb_lt in Hwin. rewrite Hwin. reflexivity.
Qed.



(** ** sendMessage: slow mode *)


Lemma latest_map (g : ChatMessage -> ChatMessage) (l : list ChatMessage) :
  (forall m, createdAt (g m) = createdAt m) ->
  latest (map g l) = option_map g (latest l).
Proof.
  intros Hg. unfold latest.
  change None with (option_map g None) at 1.
  generalize (@None ChatMessage) as acc.
  induction l as [|x l IH]; intros acc; simpl; [reflexivity|].
  rewrite <- IH. f_equal.
  destruct acc as [a|]; simpl; [|reflexivity].
  rewrite !Hg. destruct (createdAt a <? createdAt x); reflexivity.
Qed.

(** C10: the slow-mode query ignores the tombstone flag: deleting a
    message leaves the message it finds unchanged (up to that flag), and a
    plain member whose latest message is deleted, hence hidden from the
    history, is still refused with [SLOW_MODE] inside the window it
    opened. *)
Theorem sendMessage_slow_mode_counts_deleted :
  (forall (st : Store) (id by_ chatId userId : Id),
     findLastMessageBy (snd (update_message id (with_deleted by_) st)) chatId userId
     = option_map (fun m => if Nat.eqb (msg_id m) id then with_deleted by_ m else m)
                  (findLastMessageBy st chatId userId))
  /\ (forall (eventId userId : Id) (body : list N) (type : MessageType) (replyTo : option Id)
             (now : Time) (st : Store) (chat : EventChat) (member : ChatMember) (lm : ChatMessage),
        earlier_checks_pass st eventId userId body type now chat member ->
        0 < slowMode chat ->
        m_role member = MEMBER ->
        findLastMessageBy st (chat_id chat) userId = Some lm ->
        isDeleted lm = true ->
        now - createdAt lm < slowMode chat * 1000 ->
        history_where st (chat_id chat) None lm = false
        /\ fst (sendMessage eventId userId body type replyTo now st)
           = inl (E_SLOW_MODE (ceil_div (slowMode chat * 1000 - (now - createdAt lm)) 1000))).
Proof.
  split.
  - intros st id by_ chatId userId.
    unfold findLastMessageBy, update_message, modify. simpl.
    rewrite filter_map_same.
    + apply latest_map. intros m. destruct (Nat.eqb (msg_id m) id); reflexivity.
    + intros m. destruct (Nat.eqb (msg_id m) id); reflexivity.
  - intros eventId userId body type replyTo now st chat member lm Hpre Hslow Hrole Hlast Hdel Hwin.
    split.
    + unfold history_where. rewrite Hdel. now rewrite andb_false_r.
    + now rewrite (sendMessage_slow_mode_reject _ _ _ _ _ _ _ _ _ _ Hpre Hslow Hrole Hlast Hwin).
Qed.

(** ** Witnesses for C5 and C10 *)


(** Member [4]'s latest message [20], at [500000], was deleted by
    moderator [3]; at [510000] the member is still refused. *)
Lemma sendMessage_slow_mode_counts_deleted_witness :
  history_where demo_live 10 None
    (mkChatMessage 20 10 4 [104%N; 105%N] TEXT None false true (Some 3%nat) 500000) = false
  /\ fst (sendMessage 1 4 [104%N] TEXT None 510000 demo_live) = inl (E_SLOW_MODE 20).
Proof.
  apply (proj2 sendMessage_slow_mode_counts_deleted 1%nat 4%nat [104%N] TEXT None 510000 demo_live
           demo_chat (mkChatMember 32 10 4 MEMBER false None 0 0)
           (mkChatMessage 20 10 4 [104%N; 105%N] TEXT None false true (Some 3%nat) 500000)).
  - repeat split; [simpl; lia | reflexivity .. | left; reflexivity | discriminate].
  - simpl; lia.
  - reflexivity.
  - vm_compute; reflexivity.
  - reflexivity.
  - simpl; lia.
Defined.

(** ** muteUser: the rank gate *)

Ltac case_on_branches H :=
  repeat (match type of H with
          | context [if ?b then _ else _] => destruct b eqn:?
          | context [match ?x with Some _ => _ | None => _ end] => destruct x eqn:?
          end; simpl in H; try discriminate).




(** ** moderateMessage on a tombstoned message *)

Lemma in_firstn_in {A} (x : A) n l : In x (firstn n l) -> In x l.
Proof. intros H. rewrite <- (firstn_skipn n l). apply in_or_app. now left. Qed.

Lemma in_skipn_in {A} (x : A) n l : In x (skipn n l) -> In x l.
Proof. intros H. rewrite <- (firstn_skipn n l). apply in_or_app. now right. Qed.

Lemma in_take_rows {A} (x : A) n l : In x (take_rows n l) -> In x l.
Proof. unfold take_rows. destruct (0 <? n); [apply in_firstn_in | apply in_skipn_in]. Qed.

Lemma in_insert_desc x m l : In x (insert_desc m l) -> x = m \/ In x l.
Proof.
  induction l as [|y l IH]; simpl; [intuition|].
  destruct (createdAt y <? createdAt m); simpl; [intuition|].
  intros [<- | H]; [auto|]. destruct (IH H); auto.
Qed.

Lemma in_sort_desc x l : In x (sort_desc l) -> In x l.
Proof.
  induction l as [|y l IH]; simpl; [auto|].
  intros H. destruct (in_insert_desc _ _ _ H); auto.
Qed.

(** Every message [getMessages] returns is not deleted. *)
Lemma getMessages_live eventId userId before limit st l b st' :
  getMessages eventId userId before limit st = (inr (l, b), st') ->
  forall m, In m l -> isDeleted m = false.
Proof.
  intros H m Hm.
  unfold getMessages, bind, gets, ret, throw in H.
  destruct (findChatByEvent st eventId) as [chat|]; [|discriminate].
  destruct (findMember st (chat_id chat) userId); [|discriminate].
  inversion H; subst. apply in_rev, in_take_rows, in_sort_desc in Hm.
  apply filter_In in Hm. destruct Hm as [_ Hw]. unfold history_where in Hw.
  destruct (isDeleted m); [|reflexivity].
  rewrite andb_false_r in Hw. simpl in Hw. discriminate.
Qed.

Lemma getPinnedMessages_live eventId userId st l st' :
  getPinnedMessages eventId userId st = (inr l, st') ->
  forall m, In m l -> isDeleted m = false.
Proof.
  intros H m Hm.
  unfold getPinnedMessages, bind, gets, ret, throw in H.
  destruct (findChatByEvent st eventId) as [chat|]; [|discriminate].
  inversion H; subst. apply in_sort_desc, filter_In in Hm. destruct Hm as [_ Hw].
  destruct (isDeleted m); [|reflexivity]. rewrite andb_false_r in Hw. discriminate.
Qed.

(** C7, counterexample: message [20] of chat [10] is deleted, yet
    moderator [3] pins it, and then unpins it, with success. *)
Lemma moderateMessage_pins_deleted :
  isDeleted (mkChatMessage 20 10 4 [104%N; 105%N] TEXT None false true (Some 3%nat) 500000) = true
  /\ fst (moderateMessage 1 20 3 ACT_PIN demo_live) = inr (PinChanged 20 ACT_PIN true)
  /\ fst (moderateMessage 1 20 3 ACT_UNPIN (snd (moderateMessage 1 20 3 ACT_PIN demo_live)))
     = inr (PinChanged 20 ACT_UNPIN false).
Proof. split; [reflexivity|]. split; vm_compute; reflexivity. Qed.

(** C7 (amended): [moderateMessage] does not look at the tombstone flag.
    For a deleted message of the chat and an actor whose role holds
    [canPin], pin and unpin succeed and set [isPinned]; the message stays
    deleted with its content and deleter, and it stays out of the
    messages [getMessages] and [getPinnedMessages] return. *)
Theorem moderateMessage_pin_ignores_tombstone :
  forall (eventId messageId userId : Id) (action : ModAction) (st : Store)
         (chat : EventChat) (member : ChatMember) (msg : ChatMessage),
    (action = ACT_PIN \/ action = ACT_UNPIN) ->
    findChatByEvent st eventId = Some chat ->
    findMember st (chat_id chat) userId = Some member ->
    canPin (ROLE_PERMISSIONS (m_role member)) = true ->
    findMessage st messageId = Some msg ->
    msg_chatId msg = chat_id chat ->
    isDeleted msg = true ->
    let pin := match action with ACT_PIN => true | _ => false end in
    exists st' : Store,
      moderateMessage eventId messageId userId action st
      = (inr (PinChanged messageId action pin), st')
      /\ findMessage st' messageId = Some (with_pinned pin msg)
      /\ isPinned (with_pinned pin msg) = pin
      /\ isDeleted (with_pinned pin msg) = true
      /\ deletedBy (with_pinned pin msg) = deletedBy msg
      /\ content (with_pinned pin msg) = content msg
      /\ (forall before limit l b st'',
            getMessages eventId userId before limit st' = (inr (l, b), st'') ->
            ~ In (with_pinned pin msg) l)
      /\ (forall l st'',
            getPinnedMessages eventId userId st' = (inr l, st'') ->
            ~ In (with_pinned pin msg) l).
Proof.
  intros eventId messageId userId action st chat member msg Hact Hc Hm Hpin Hmsg Hchat Hdel pin.
  assert (Hid : msg_id msg = messageId).
  { apply find_some in Hmsg. destruct Hmsg as [_ Hid]. now apply Nat.eqb_eq. }
  set (st' := set_messages st (map (fun m => if Nat.eqb (msg_id m) messageId
                                             then with_pinned pin m else m) (messages st))).
  assert (Hfind : findMessage st' messageId = Some (with_pinned pin msg)).
  { unfold findMessage, st'. simpl. rewrite find_map_same.
    - unfold findMessage in Hmsg. rewrite Hmsg. simpl. now rewrite Hid, Nat.eqb_refl.
    - intros x. destruct (Nat.eqb (msg_id x) messageId) eqn:E; simpl; now rewrite ?E. }
  exists st'. split.
  - unfold moderateMessage, update_message, modify, bind, gets, when, throw, ret.
    rewrite Hc, Hm, Hmsg, Hchat, Nat.eqb_refl. simpl. rewrite Hpin.
    destruct Hact as [-> | ->]; simpl; unfold st', pin in Hfind; simpl in Hfind;
      rewrite Hfind; reflexivity.
  - split; [exact Hfind|]. split; [reflexivity|]. split; [exact Hdel|].
    split; [reflexivity|]. split; [reflexivity|]. split.
    + intros before limit l b st'' H Hin.
      pose proof (getMessages_live _ _ _ _ _ _ _ _ H _ Hin) as Hl. simpl in Hl. congruence.
    + intros l st'' H Hin.
      pose proof (getPinnedMessages_live _ _ _ _ _ H _ Hin) as Hl. simpl in Hl. congruence.
Qed.

Lemma moderateMessage_pin_ignores_tombstone_witness :
  exists st',
    moderateMessage 1 20 3 ACT_PIN demo_live = (inr (PinChanged 20 ACT_PIN true), st')
    /\ findMessage st' 20 = Some (with_pinned true
         (mkChatMessage 20 10 4 [104%N; 105%N] TEXT None false true (Some 3%nat) 500000)).
Proof.
  destruct (moderateMessage_pin_ignores_tombstone 1 20 3 ACT_PIN demo_live demo_chat
              (mkChatMember 31 10 3 MODERATOR false None 0 0)
              (mkChatMessage 20 10 4 [104%N; 105%N] TEXT None false true (Some 3%nat) 500000))
    as [st' [H1 [H2 _]]];
    [left; reflexivity | reflexivity | reflexivity | reflexivity | reflexivity
    | reflexivity | reflexivity |].
  exists st'. split; [exact H1 | exact H2].
Defined.

(** ** Reply references *)

Lemma replies_resolve_frame st st' :
  messages st' = messages st -> replies_resolve st -> replies_resolve st'.
Proof. unfold replies_resolve, findMessage. intros ->. auto. Qed.

Section PreservesReplies.

Lemma pr_ret {A} (a : A) : preserves_replies (ret a).
Proof. intros st H; exact H. Qed.

Lemma pr_gets {A} (f : Store -> A) : preserves_replies (gets f).
Proof. intros st H; exact H. Qed.

Lemma pr_throw {A} e : preserves_replies (@throw A e).
Proof. intros st H; exact H. Qed.

Lemma pr_when b e : preserves_replies (when b e).
Proof. intros st H; destruct b; exact H. Qed.

Lemma pr_fresh : preserves_replies fresh_id.
Proof. intros st. apply replies_resolve_frame. reflexivity. Qed.

Lemma pr_modify f :
  (forall st, messages (f st) = messages st) -> preserves_replies (modify f).
Proof. intros Hf st. apply replies_resolve_frame. apply Hf. Qed.

Lemma pr_update_member id f : preserves_replies (update_member id f).
Proof. apply pr_modify. reflexivity. Qed.

Lemma pr_update_message id f :
  (forall m, msg_id (f m) = msg_id m) -> (forall m, replyToId (f m) = replyToId m) ->
  preserves_replies (update_message id f).
Proof.
  intros Hid Hr st H m r Hin Hm. simpl in *.
  set (g := fun m : ChatMessage => if Nat.eqb (msg_id m) id then f m else m) in *.
  assert (Hgid : forall x, msg_id (g x) = msg_id x).
  { intros x; unfold g; destruct (Nat.eqb (msg_id x) id); auto. }
  apply in_map_iff in Hin. destruct Hin as [m0 [<- Hin]].
  assert (Hr0 : replyToId m0 = Some r).
  { rewrite <- Hm. unfold g. destruct (Nat.eqb (msg_id m0) id); auto. }
  destruct (H m0 r Hin Hr0) as [t Ht]. exists (g t).
  unfold findMessage in *. simpl. rewrite find_map_same, Ht; [reflexivity|].
  intros x; now rewrite Hgid.
Qed.

Lemma pr_bind {A B} (c : M A) (f : A -> M B) :
  preserves_replies c -> (forall a, preserves_replies (f a)) -> preserves_replies (bind c f).
Proof.
  intros Hc Hf st H. unfold bind.
  specialize (Hc st H). destruct (c st) as [[e|a] st']; simpl in *; auto.
  apply Hf; exact Hc.
Qed.

(** [createMessage] stores the reply reference only when its target
    exists. *)
Lemma pr_createMessage chatId userId body type replyTo now :
  preserves_replies (createMessage chatId userId body type replyTo now).
Proof.
  intros st H. unfold createMessage, fresh_id, modify, bind, gets, ret, throw.
  unfold replies_resolve, findMessage in *.
  destruct replyTo as [r0|] eqn:Er; simpl.
  - destruct (find (fun m => Nat.eqb (msg_id m) r0) (messages st)) as [t0|] eqn:Et;
      simpl; [|exact H].
    intros m r Hin Hm. simpl in Hin. apply in_app_or in Hin.
    simpl. rewrite find_app.
    destruct Hin as [Hin | [<- | []]].
    + destruct (H m r Hin Hm) as [t Ht]. rewrite Ht. eauto.
    + simpl in Hm. inversion Hm; subst r0. rewrite Et. eauto.
  - intros m r Hin Hm. simpl in Hin. apply in_app_or in Hin.
    simpl. rewrite find_app.
    destruct Hin as [Hin | [<- | []]].
    + destruct (H m r Hin Hm) as [t Ht]. rewrite Ht. eauto.
    + discriminate.
Qed.

End PreservesReplies.

Create HintDb pr.
#[export] Hint Resolve pr_ret pr_gets pr_throw pr_when pr_fresh pr_update_member
  pr_createMessage : pr.

Ltac pr_solve :=
  repeat match goal with
  | |- preserves_replies (bind _ _) => apply pr_bind; [| intro]
  | |- preserves_replies (update_message _ _) =>
      apply pr_update_message; intro; reflexivity
  | |- preserves_replies (modify _) => apply pr_modify; intro; reflexivity
  | |- preserves_replies (match ?x with _ => _ end) => destruct x
  | |- preserves_replies (if ?b then _ else _) => destruct b
  | |- preserves_replies (let _ := _ in _) => cbv zeta
  | |- preserves_replies _ => solve [auto with pr]
  end.

Lemma pr_getOrJoinChat eventId userId now : preserves_replies (getOrJoinChat eventId userId now).
Proof. unfold getOrJoinChat, loadChat, createChat, createMember. pr_solve. Qed.

Lemma pr_getMessages eventId userId before limit :
  preserves_replies (getMessages eventId userId before limit).
Proof. unfold getMessages. pr_solve. Qed.

Lemma pr_getPinnedMessages eventId userId : preserves_replies (getPinnedMessages eventId userId).
Proof. unfold getPinnedMessages. pr_solve. Qed.

Lemma pr_sendMessage eventId userId body type replyTo now :
  preserves_replies (sendMessage eventId userId body type replyTo now).
Proof. unfold sendMessage, slowModeCheck. pr_solve. Qed.

Lemma pr_moderateMessage eventId messageId userId action :
  preserves_replies (moderateMessage eventId messageId userId action).
Proof. unfold moderateMessage. pr_solve. Qed.

Lemma pr_muteUser eventId targetUserId actorUserId durationMinutes now :
  preserves_replies (muteUser eventId targetUserId actorUserId durationMinutes now).
Proof. unfold muteUser. pr_solve. Qed.

Lemma pr_updateSettings eventId userId slowMode_ isActive_ :
  preserves_replies (updateSettings eventId userId slowMode_ isActive_).
Proof. unfold updateSettings. pr_solve. Qed.

Lemma pr_updateLastSeen eventId userId now : preserves_replies (updateLastSeen eventId userId now).
Proof. unfold updateLastSeen. pr_solve. Qed.

Lemma run_op_preserves_replies o st :
  replies_resolve st -> replies_resolve (run_op o st).
Proof.
  destruct o; simpl.
  - apply pr_getOrJoinChat.
  - apply pr_getMessages.
  - apply pr_getPinnedMessages.
  - apply pr_sendMessage.
  - apply pr_moderateMessage.
  - apply pr_muteUser.
  - apply pr_updateSettings.
  - apply pr_updateLastSeen.
Qed.

Lemma demo_live_replies_same_chat : replies_same_chat demo_live.
Proof.
  intros m r Hin. simpl in Hin.
  destruct Hin as [<- | [<- | [<- | []]]]; discriminate.
Qed.

(** C8, counterexample: member [6] of the chats of events [1] and [2]
    replies in chat [10] to message [22] of chat [11]; the send
    succeeds and the store reached no longer has every reply inside its
    own chat. *)
Lemma sendMessage_reply_across_chats :
  fst (sendMessage 1 6 [104%N] TEXT (Some 22%nat) 1000000 demo_live)
    = inr (mkChatMessage 40 10 6 [104%N] TEXT (Some 22%nat) false false None 1000000)
  /\ replies_same_chat demo_live
  /\ reachable demo_live (run_op (OpSendMessage 1 6 [104%N] TEXT (Some 22%nat) 1000000) demo_live)
  /\ ~ replies_same_chat (run_op (OpSendMessage 1 6 [104%N] TEXT (Some 22%nat) 1000000) demo_live).
Proof.
  split; [vm_compute; reflexivity|].
  split; [exact demo_live_replies_same_chat|].
  split; [apply reach_step, reach_init|].
  intros H.
  destruct (H (mkChatMessage 40 10 6 [104%N] TEXT (Some 22%nat) false false None 1000000) 22%nat)
    as [t [Ht Hc]].
  - vm_compute. right; right; right; left; reflexivity.
  - reflexivity.
  - vm_compute in Ht. inversion Ht; subst t. vm_compute in Hc. discriminate.
Qed.

(** C8 (amended): over every store reachable through the chat service
    from a store whose reply references resolve, each message's
    [replyToId] is absent or names an existing message; the message named
    may belong to another chat, since [sendMessage] checks only that it
    exists (the foreign key), not its chat. *)
Theorem chat_ops_replies_resolve :
  forall st0 st : Store, replies_resolve st0 -> reachable st0 st -> replies_resolve st.
Proof.
  intros st0 st H0 Hr. induction Hr as [| o st _ IH].
  - exact H0.
  - apply run_op_preserves_replies, IH.
Qed.

Lemma chat_ops_replies_resolve_witness :
  replies_resolve (run_op (OpSendMessage 1 6 [104%N] TEXT (Some 22%nat) 1000000) demo_live).
Proof.
  apply (chat_ops_replies_resolve demo_live).
  - intros m r Hin. simpl in Hin.
    destruct Hin as [<- | [<- | [<- | []]]]; discriminate.
  - apply reach_step, reach_init.
Defined.

(** ** Presence notifications of the gateway *)

(** C9 (code bug): user [7] holds connections [1] and [2], both joined to
    the room of event [5]. When connection [1] disconnects, [member:left]
    for user [7] is broadcast to the room although connection [2] is
    still live in it: the disconnect handler drops the socket from
    [userSockets] before [leaveRoom], whose threshold
    [socketsInRoom.length <= 1] counts the leaving socket. On the
    [chat:leave] path, which keeps the socket in [userSockets], no
    [member:left] is sent in the same situation. *)
Theorem disconnect_spurious_member_left :
  let g := Gateway.join 2 5 true
             (Gateway.join 1 5 true (Gateway.connect 2 7 (Gateway.connect 1 7 Gateway.empty))) in
  Gateway.live_in_room 5 7 g = [1%nat; 2%nat]
  /\ Gateway.member_left_sent 5 7 g = false
  /\ Gateway.member_left_sent 5 7 (Gateway.disconnect 1 g) = true
  /\ Gateway.live_in_room 5 7 (Gateway.disconnect 1 g) = [2%nat]
  /\ Gateway.member_left_sent 5 7 (Gateway.leave 1 g) = false
  /\ Gateway.live_in_room 5 7 (Gateway.leave 1 g) = [2%nat].
Proof. vm_compute. repeat split. Qed.

(** * Further properties of the chat code *)

(** ** Error reporting *)

Fixpoint char_in (c : Ascii.ascii) (s : String.string) : bool :=
  match s with
  | String.EmptyString => false
  | String.String d s' => Ascii.eqb c d || char_in c s'
  end.

Lemma prefix_char_in c p s :
  String.prefix p s = true -> char_in c p = true -> char_in c s = true.
Proof.
  revert s. induction p as [|a p IH]; intros s Hp Hc; [discriminate|].
  destruct s as [|b s]; simpl in Hp; [discriminate|].
  destruct (Ascii.ascii_dec a b) as [<-|]; [|discriminate].
  simpl in *. apply orb_true_iff in Hc. apply orb_true_iff.
  destruct Hc as [Hc|Hc]; [now left | right; now apply IH].
Qed.

Lemma includes_unfold s p :
  includes s p = String.prefix p s || match s with
                                      | String.EmptyString => false
                                      | String.String _ s' => includes s' p
                                      end.
Proof. destruct s; reflexivity. Qed.

Lemma includes_char_in c s p :
  includes s p = true -> char_in c p = true -> char_in c s = true.
Proof.
  induction s as [|d s IH]; intros H Hc; rewrite includes_unfold in H.
  - rewrite orb_false_r in H. exact (prefix_char_in c p _ H Hc).
  - apply orb_true_iff in H. destruct H as [H|H].
    + exact (prefix_char_in c p _ H Hc).
    + simpl. rewrite (IH H Hc). apply orb_true_r.
Qed.

Lemma char_in_append c a b :
  char_in c (String.append a b) = char_in c a || char_in c b.
Proof. induction a as [|d a IH]; simpl; [reflexivity|]. now rewrite IH, orb_assoc. Qed.

Lemma char_in_uint c d :
  char_in c (DecimalString.NilEmpty.string_of_uint d) = true ->
  In c ["0"; "1"; "2"; "3"; "4"; "5"; "6"; "7"; "8"; "9"]%char.
Proof.
  induction d; intros H; simpl in H; try discriminate;
    apply orb_true_iff in H; destruct H as [H|H]; auto;
    apply Ascii.eqb_eq in H; subst; simpl; tauto.
Qed.

Lemma show_int_no_u r : char_in "u"%char (show_int r) = false.
Proof.
  destruct (char_in "u"%char (show_int r)) eqn:H; [|reflexivity]. exfalso.
  unfold show_int, DecimalString.NilZero.string_of_int,
         DecimalString.NilZero.string_of_uint in H.
  destruct (Z.to_int r) as [d|d]; [|simpl in H];
    destruct d; try discriminate; apply char_in_uint in H; simpl in H;
    repeat (destruct H as [H|H]; [discriminate|]); exact H.
Qed.

Lemma includes_without_char s p c :
  char_in c p = true -> char_in c s = false -> includes s p = false.
Proof.
  intros Hp Hs. destruct (includes s p) eqn:H; [|reflexivity].
  rewrite (includes_char_in c s p H Hp) in Hs. discriminate.
Qed.

Lemma prefix_append p a b : String.prefix p a = true -> String.prefix p (String.append a b) = true.
Proof.
  revert a. induction p as [|x p IH]; intros a H; [destruct (String.append a b); reflexivity|].
  destruct a as [|y a]; simpl in *; [discriminate|].
  destruct (Ascii.ascii_dec x y); [now apply IH | discriminate].
Qed.

Lemma includes_append_l a b p : includes a p = true -> includes (String.append a b) p = true.
Proof.
  induction a as [|d a IH]; intros H; rewrite includes_unfold in H.
  - rewrite orb_false_r in H. rewrite includes_unfold, (prefix_append p _ _ H). reflexivity.
  - apply orb_true_iff in H. rewrite includes_unfold. apply orb_true_iff. destruct H as [H|H].
    + left. exact (prefix_append p (String.String d a) b H).
    + right. simpl. now apply IH.
Qed.

(** The remaining seconds in the slow-mode text never spoil its
    classification. *)
Lemma slow_mode_message_reports r :
  http_status sendMessage_status (E_SLOW_MODE r) = Some 429
  /\ socket_code (E_SLOW_MODE r) = Some "SLOW_MODE"%string.
Proof.
  set (tail := String.append (show_int r) "s"%string).
  set (msg := String.append "Please wait before sending another message: "%string tail).
  assert (Hu : char_in "u"%char msg = false).
  { unfold msg. rewrite char_in_append. unfold tail. rewrite char_in_append, show_int_no_u.
    reflexivity. }
  assert (Hw : includes msg "wait"%string = true).
  { apply includes_append_l. reflexivity. }
  unfold http_status, socket_code, error_message, sendMessage_status, getErrorCode.
  fold tail. fold msg. cbv beta iota delta [option_map].
  rewrite (includes_without_char msg "not found"%string "u"%char eq_refl Hu),
          (includes_without_char msg "muted"%string "u"%char eq_refl Hu), Hw.
  split; reflexivity.
Qed.

Lemma sendMessage_errors eventId userId body type replyTo now st e st' :
  sendMessage eventId userId body type replyTo now st = (inl e, st') ->
  e = E_MESSAGE_TOO_LONG \/ e = E_CHAT_NOT_FOUND \/ e = E_CHAT_DISABLED
  \/ e = E_NOT_AUTHORIZED \/ e = E_USER_MUTED \/ (exists r, e = E_SLOW_MODE r)
  \/ e = E_CONSTRAINT.
Proof.
  intros H.
  unfold sendMessage, slowModeCheck, createMessage, update_member, fresh_id, when,
         bind, gets, ret, throw, modify in H.
  case_on_branches H; inversion H; subst; eauto 10.
Qed.

(** [sendMessage] failures as the client sees them: over REST, a message
    that is too long or a forbidden announcement or non-member answers
    400, a mute or slow mode 429, and a missing or disabled chat 500 (the
    text of CHAT_NOT_FOUND has no "not found"); over the socket the codes
    are MESSAGE_TOO_LONG, NOT_AUTHORIZED, USER_MUTED, SLOW_MODE, and ERROR
    for a missing or disabled chat. *)
Theorem sendMessage_error_reports :
  forall eventId userId body type replyTo now st e st',
    sendMessage eventId userId body type replyTo now st = (inl e, st') ->
    e <> E_CONSTRAINT ->
    (e = E_MESSAGE_TOO_LONG /\ http_status sendMessage_status e = Some 400
       /\ socket_code e = Some "MESSAGE_TOO_LONG"%string)
    \/ ((e = E_CHAT_NOT_FOUND \/ e = E_CHAT_DISABLED) /\ http_status sendMessage_status e = Some 500
       /\ socket_code e = Some "ERROR"%string)
    \/ (e = E_NOT_AUTHORIZED /\ http_status sendMessage_status e = Some 400
       /\ socket_code e = Some "NOT_AUTHORIZED"%string)
    \/ (e = E_USER_MUTED /\ http_status sendMessage_status e = Some 429
       /\ socket_code e = Some "USER_MUTED"%string)
    \/ ((exists r, e = E_SLOW_MODE r) /\ http_status sendMessage_status e = Some 429
       /\ socket_code e = Some "SLOW_MODE"%string).
Proof.
  intros eventId userId body type replyTo now st e st' H Hc.
  destruct (sendMessage_errors _ _ _ _ _ _ _ _ _ H)
    as [-> | [-> | [-> | [-> | [-> | [[r ->] | ->]]]]]].
  - left. repeat split; vm_compute; reflexivity.
  - right; left. repeat split; [now left | vm_compute; reflexivity ..].
  - right; left. repeat split; [now right | vm_compute; reflexivity ..].
  - right; right; left. repeat split; vm_compute; reflexivity.
  - right; right; right; left. repeat split; vm_compute; reflexivity.
  - right; right; right; right. destruct (slow_mode_message_reports r). eauto.
  - congruence.
Qed.

Lemma sendMessage_error_reports_witness :
  (exists r, E_SLOW_MODE 20 = E_SLOW_MODE r)
  /\ http_status sendMessage_status (E_SLOW_MODE 20) = Some 429
  /\ socket_code (E_SLOW_MODE 20) = Some "SLOW_MODE"%string.
Proof.
  destruct (sendMessage_error_reports 1 6 [104%N] TEXT None 410000 demo_live (E_SLOW_MODE 20)
              (snd (sendMessage 1 6 [104%N] TEXT None 410000 demo_live)))
    as [H|[H|[H|[H|H]]]];
    [vm_compute; reflexivity | discriminate | ..];
    destruct H as [He H]; try (exfalso; decompose [or] He; discriminate); try discriminate.
  exact (conj He H).
Defined.

Lemma moderateMessage_error_not_400 eventId messageId userId action st e st' :
  action <> ACT_OTHER ->
  moderateMessage eventId messageId userId action st = (inl e, st') ->
  http_status moderation_status e <> Some 400.
Proof.
  intros Hact H.
  unfold moderateMessage, update_message, when, bind, gets, ret, throw, modify in H.
  case_on_branches H; try (destruct action; simpl in H; case_on_branches H);
    inversion H; subst; try congruence; vm_compute; discriminate.
Qed.

(** The REST statuses of the moderation endpoints and of the history
    read: the controller answers 400 for an action other than delete, pin
    or unpin, and only for those, before the service runs; a missing chat
    answers 500 (its text has no "not found"), a refused actor 403, a
    missing message or target member 404; a mute whose end is an Invalid
    Date fails with the store's own error text. *)
Theorem moderation_error_reports :
  (forall eventId messageId userId action st code st',
     moderateMessage_http eventId messageId userId action st = (Some code, st') ->
     code = 400 -> action = ACT_OTHER /\ st' = st)
  /\ (forall eventId messageId userId action st e st',
     action <> ACT_OTHER ->
     moderateMessage eventId messageId userId action st = (inl e, st') -> e <> E_CONSTRAINT ->
     (e = E_CHAT_NOT_FOUND /\ http_status moderation_status e = Some 500)
     \/ (e = E_NOT_AUTHORIZED /\ http_status moderation_status e = Some 403)
     \/ (e = E_MESSAGE_NOT_FOUND /\ http_status moderation_status e = Some 404))
  /\ (forall eventId targetUserId actorUserId durationMinutes now st e st',
     muteUser eventId targetUserId actorUserId durationMinutes now st = (inl e, st') ->
     (e = E_CHAT_NOT_FOUND /\ http_status moderation_status e = Some 500)
     \/ (e = E_NOT_AUTHORIZED /\ http_status moderation_status e = Some 403)
     \/ (e = E_USER_NOT_FOUND_IN_CHAT /\ http_status moderation_status e = Some 404)
     \/ (e = E_INVALID_DATE /\ http_status moderation_status e = None))
  /\ (forall eventId userId slowMode_ isActive_ st e st',
     updateSettings eventId userId slowMode_ isActive_ st = (inl e, st') -> e <> E_CONSTRAINT ->
     (e = E_CHAT_NOT_FOUND /\ http_status moderation_status e = Some 500)
     \/ (e = E_NOT_AUTHORIZED /\ http_status moderation_status e = Some 403))
  /\ (forall eventId userId before limit st e st',
     getMessages eventId userId before limit st = (inl e, st') ->
     (e = E_CHAT_NOT_FOUND /\ http_status moderation_status e = Some 500)
     \/ (e = E_NOT_AUTHORIZED /\ http_status moderation_status e = Some 403)).
Proof.
  split; [|split; [|split; [|split]]].
  - intros eventId messageId userId action st code st' H Hcode. subst code.
    unfold moderateMessage_http in H.
    destruct action; [| | | now inversion H].
    all: destruct (moderateMessage eventId messageId userId _ st) as [[e|r] st1] eqn:Hm;
      [ exfalso; eapply moderateMessage_error_not_400; [| exact Hm | congruence];
        discriminate
      | congruence ].
  - intros eventId messageId userId action st e st' Hact H Hc.
    unfold moderateMessage, update_message, when, bind, gets, ret, throw, modify in H.
    case_on_branches H; try (destruct action; simpl in H; case_on_branches H);
      inversion H; subst; try congruence; vm_compute; tauto.
  - intros eventId targetUserId actorUserId durationMinutes now st e st' H.
    unfold muteUser, update_member, when, bind, gets, ret, throw, modify in H.
    case_on_branches H; inversion H; subst; vm_compute; tauto.
  - intros eventId userId slowMode_ isActive_ st e st' H Hc.
    unfold updateSettings, when, bind, gets, ret, throw, modify in H.
    case_on_branches H;
      try (match type of H with
           | context [match ?x with Some _ => _ | None => _ end] => destruct x eqn:?
           end; simpl in H; case_on_branches H);
      inversion H; subst; try congruence; vm_compute; tauto.
  - intros eventId userId before limit st e st' H.
    unfold getMessages, bind, gets, ret, throw in H.
    case_on_branches H; inversion H; subst; vm_compute; tauto.
Qed.

(** ** History pages *)

Definition newer_first (a b : ChatMessage) : Prop := createdAt b <= createdAt a.

Lemma insert_desc_perm m l : Permutation (insert_desc m l) (m :: l).
Proof.
  induction l as [|x l IH]; simpl; [auto|].
  destruct (createdAt x <? createdAt m); [auto|].
  eapply perm_trans; [apply perm_skip, IH | apply perm_swap].
Qed.

Lemma sort_desc_perm l : Permutation (sort_desc l) l.
Proof.
  induction l as [|x l IH]; unfold sort_desc in *; simpl; [auto|].
  eapply perm_trans; [apply insert_desc_perm | apply perm_skip, IH].
Qed.

Lemma insert_desc_sorted m l :
  StronglySorted newer_first l -> StronglySorted newer_first (insert_desc m l).
Proof.
  induction l as [|x l IH]; simpl; intros H.
  - repeat constructor.
  - inversion H as [|? ? Hl Hx]; subst. destruct (createdAt x <? createdAt m) eqn:E.
    + apply Z.ltb_lt in E. constructor; [exact H|]. constructor; [unfold newer_first; lia|].
      eapply Forall_impl; [|exact Hx]. unfold newer_first; intros; lia.
    + apply Z.ltb_ge in E. constructor; [now apply IH|].
      apply Forall_forall. intros y Hy. apply (Permutation_in _ (insert_desc_perm m l)) in Hy.
      destruct Hy as [<-|Hy]; [unfold newer_first; lia|].
      rewrite Forall_forall in Hx. now apply Hx.
Qed.

Lemma sort_desc_sorted l : StronglySorted newer_first (sort_desc l).
Proof.
  induction l as [|x l IH]; unfold sort_desc in *; simpl; [constructor|].
  now apply insert_desc_sorted.
Qed.

Lemma SS_firstn {A} (R : A -> A -> Prop) n l :
  StronglySorted R l -> StronglySorted R (firstn n l).
Proof.
  revert n. induction l as [|x l IH]; intros [|n] H; simpl; [constructor | constructor | constructor |].
  inversion H as [|? ? Hl Hx]; subst. constructor; [now apply IH|].
  rewrite Forall_forall in *. intros y Hy. apply Hx. exact (in_firstn_in y n l Hy).
Qed.

Lemma SS_skipn {A} (R : A -> A -> Prop) n l :
  StronglySorted R l -> StronglySorted R (skipn n l).
Proof.
  revert n. induction l as [|x l IH]; intros [|n] H; simpl.
  - exact H.
  - constructor.
  - exact H.
  - inversion H; subst. now apply IH.
Qed.

Lemma SS_take_rows {A} (R : A -> A -> Prop) n l :
  StronglySorted R l -> StronglySorted R (take_rows n l).
Proof. unfold take_rows. destruct (0 <? n); [apply SS_firstn | apply SS_skipn]. Qed.

Lemma SS_app_single {A} (R : A -> A -> Prop) l x :
  StronglySorted R l -> (forall y, In y l -> R y x) -> StronglySorted R (l ++ [x]).
Proof.
  induction l as [|a l IH]; simpl; intros H Hx; [repeat constructor|].
  inversion H as [|? ? Hl Ha]; subst. constructor.
  - apply IH; auto.
  - apply Forall_app. split; [exact Ha|]. constructor; [apply Hx; now left | constructor].
Qed.

Lemma SS_rev {A} (R : A -> A -> Prop) l :
  StronglySorted R l -> StronglySorted (fun a b => R b a) (rev l).
Proof.
  induction l as [|x l IH]; simpl; intros H; [constructor|].
  inversion H as [|? ? Hl Hx]; subst. apply SS_app_single; [now apply IH|].
  intros y Hy. rewrite <- in_rev in Hy. rewrite Forall_forall in Hx. now apply Hx.
Qed.

Lemma SS_app_rel {A} (R : A -> A -> Prop) l1 l2 :
  StronglySorted R (l1 ++ l2) -> forall x y, In x l1 -> In y l2 -> R x y.
Proof.
  induction l1 as [|a l1 IH]; simpl; intros H x y Hx Hy; [destruct Hx|].
  inversion H as [|? ? Hl Ha]; subst. destruct Hx as [<-|Hx].
  - rewrite Forall_forall in Ha. apply Ha, in_or_app. now right.
  - eapply IH; eauto.
Qed.

(** The rows [getMessages] reads: the live messages of the chat before the
    cursor, newest first. *)
Definition history_rows (st : Store) (chatId : Id) (before : option Id) : list ChatMessage :=
  sort_desc (filter (history_where st chatId before) (messages st)).

Lemma getMessages_spec eventId userId before limit st msgs hasMore st' :
  getMessages eventId userId before limit st = (inr (msgs, hasMore), st') ->
  st' = st /\ exists chat member,
    findChatByEvent st eventId = Some chat
    /\ findMember st (chat_id chat) userId = Some member
    /\ msgs = rev (take_rows (Z.min limit 100) (history_rows st (chat_id chat) before))
    /\ hasMore = match last (map Some (take_rows (Z.min limit 100)
                                          (history_rows st (chat_id chat) before))) None with
                 | Some oldest =>
                     Nat.ltb 0 (length (filter (fun m => Nat.eqb (msg_chatId m) (chat_id chat)
                                                         && negb (isDeleted m)
                                                         && (createdAt m <? createdAt oldest))
                                               (messages st)))
                 | None => false
                 end.
Proof.
  intros H. unfold getMessages, bind, gets, ret, throw in H.
  destruct (findChatByEvent st eventId) as [chat|] eqn:Hc; [|discriminate].
  destruct (findMember st (chat_id chat) userId) as [member|] eqn:Hm; [|discriminate].
  inversion H; subst. split; [reflexivity|]. exists chat, member. auto.
Qed.

Lemma in_history_rows st chatId before m :
  In m (history_rows st chatId before) <->
  In m (messages st) /\ history_where st chatId before m = true.
Proof.
  unfold history_rows. split.
  - intros H. apply (Permutation_in _ (sort_desc_perm _)) in H. now apply filter_In.
  - intros H. apply (Permutation_in _ (Permutation_sym (sort_desc_perm _))). now apply filter_In.
Qed.

Lemma history_where_spec st chatId before m :
  history_where st chatId before m = true <->
  msg_chatId m = chatId /\ isDeleted m = false
  /\ (forall b c, before = Some b -> findMessage st b = Some c -> createdAt m < createdAt c).
Proof.
  unfold history_where. rewrite !andb_true_iff, negb_true_iff, Nat.eqb_eq.
  split.
  - intros [[H1 H2] H3]. repeat split; auto. intros b c -> Hc. rewrite Hc in H3.
    now apply Z.ltb_lt.
  - intros [H1 [H2 H3]]. repeat split; auto. destruct before as [b|]; [|reflexivity].
    destruct (findMessage st b) as [c|] eqn:Hc; [|reflexivity].
    apply Z.ltb_lt. now apply (H3 b c).
Qed.

Lemma take_rows_pos {A} n (l : list A) : 0 < n -> take_rows n l = firstn (Z.to_nat n) l.
Proof. intros H. unfold take_rows. destruct (0 <? n) eqn:E; [reflexivity | apply Z.ltb_ge in E; lia]. Qed.

Lemma take_rows_neg {A} n (l : list A) :
  n <= 0 -> take_rows n l = skipn (length l - Z.to_nat (- n)) l.
Proof. intros H. unfold take_rows. destruct (0 <? n) eqn:E; [apply Z.ltb_lt in E; lia | reflexivity]. Qed.

Lemma filter_all_false {A} (f : A -> bool) l :
  (forall x, In x l -> f x = false) -> filter f l = [].
Proof.
  induction l as [|x l IH]; simpl; intros H; [reflexivity|].
  rewrite (H x (or_introl eq_refl)). apply IH. auto.
Qed.

(** [getMessages] with a positive [limit] reads without writing and
    answers a member with a page of at most [min(limit, 100)] live
    messages of the chat, all older than the cursor message when the
    cursor exists, oldest first; every matching message left out is not
    newer than any message of the page. *)
Theorem getMessages_page :
  forall eventId userId before limit st msgs hasMore st',
    getMessages eventId userId before limit st = (inr (msgs, hasMore), st') ->
    0 < limit ->
    st' = st /\
    exists chat member,
      findChatByEvent st eventId = Some chat
      /\ findMember st (chat_id chat) userId = Some member
      /\ (forall m, In m msgs ->
            In m (messages st) /\ msg_chatId m = chat_id chat /\ isDeleted m = false
            /\ (forall b c, before = Some b -> findMessage st b = Some c ->
                            createdAt m < createdAt c))
      /\ StronglySorted (fun a b => createdAt a <= createdAt b) msgs
      /\ (length msgs <= Z.to_nat (Z.min limit 100))%nat
      /\ (forall m x, In m (messages st) -> history_where st (chat_id chat) before m = true ->
                      ~ In m msgs -> In x msgs -> createdAt m <= createdAt x).
Proof.
  intros eventId userId before limit st msgs hasMore st' H Hl.
  destruct (getMessages_spec _ _ _ _ _ _ _ _ H) as [-> [chat [member [Hc [Hm [Hmsgs _]]]]]].
  split; [reflexivity|]. exists chat, member. split; [exact Hc|]. split; [exact Hm|].
  set (L := history_rows st (chat_id chat) before) in *.
  set (k := Z.to_nat (Z.min limit 100)).
  assert (HT : take_rows (Z.min limit 100) L = firstn k L) by (apply take_rows_pos; lia).
  rewrite HT in Hmsgs.
  assert (Hin : forall m, In m msgs -> In m (firstn k L)).
  { intros m. rewrite Hmsgs, <- in_rev. auto. }
  split; [|split; [|split]].
  - intros m Hm'. apply Hin, in_firstn_in in Hm'. unfold L in Hm'.
    apply in_history_rows in Hm'. destruct Hm' as [Hm1 Hw].
    apply history_where_spec in Hw. tauto.
  - rewrite Hmsgs. exact (SS_rev _ _ (SS_firstn _ k _ (sort_desc_sorted _))).
  - rewrite Hmsgs, length_rev. apply firstn_le_length.
  - intros m x Hm1 Hw Hnot Hx.
    assert (HmL : In m L) by (apply in_history_rows; auto).
    assert (Hsorted : StronglySorted newer_first (firstn k L ++ skipn k L))
      by (rewrite firstn_skipn; apply sort_desc_sorted).
    rewrite <- (firstn_skipn k L) in HmL. apply in_app_or in HmL.
    destruct HmL as [HmL | HmL].
    + exfalso. apply Hnot. rewrite Hmsgs, <- in_rev. exact HmL.
    + exact (SS_app_rel _ _ _ Hsorted x m (Hin x Hx) HmL).
Qed.

Lemma getMessages_page_witness :
  (length [mkChatMessage 21 10 6 [104%N] TEXT None false false None 400000] <= 50)%nat.
Proof.
  destruct (getMessages_page 1 6 None 50 demo_live
              [mkChatMessage 21 10 6 [104%N] TEXT None false false None 400000] false demo_live)
    as [_ [chat [member [_ [_ [_ [_ [Hlen _]]]]]]]];
    [vm_compute; reflexivity | lia |].
  vm_compute in Hlen. vm_compute. exact Hlen.
Defined.

(** A negative [limit], which the controller passes on from [parseInt]
    as it is, is not bounded by the cap of 100: the page holds the [-limit] oldest
    matching messages (all of them when there are fewer), and every
    matching message left out is at least as new as any of the page. *)
Theorem getMessages_negative_limit :
  forall eventId userId before limit st msgs hasMore st',
    getMessages eventId userId before limit st = (inr (msgs, hasMore), st') ->
    limit < 0 ->
    query_limit (Some limit) 50 = limit
    /\ exists chat,
      findChatByEvent st eventId = Some chat
      /\ length msgs = Nat.min (Z.to_nat (- limit))
                               (length (filter (history_where st (chat_id chat) before) (messages st)))
      /\ (forall m x, In m (messages st) -> history_where st (chat_id chat) before m = true ->
                      ~ In m msgs -> In x msgs -> createdAt x <= createdAt m).
Proof.
  intros eventId userId before limit st msgs hasMore st' H Hl.
  split; [unfold query_limit; destruct (limit =? 0) eqn:E0; [apply Z.eqb_eq in E0; lia | reflexivity]|].
  destruct (getMessages_spec _ _ _ _ _ _ _ _ H) as [-> [chat [member [Hc [Hm [Hmsgs _]]]]]].
  exists chat. split; [exact Hc|].
  set (L := history_rows st (chat_id chat) before) in *.
  set (j := (length L - Z.to_nat (- limit))%nat).
  assert (HT : take_rows (Z.min limit 100) L = skipn j L).
  { rewrite take_rows_neg by lia. unfold j. do 3 f_equal. lia. }
  rewrite HT in Hmsgs.
  assert (HLlen : length L = length (filter (history_where st (chat_id chat) before) (messages st)))
    by (apply Permutation_length, sort_desc_perm).
  split.
  - rewrite Hmsgs, length_rev, length_skipn, <- HLlen. unfold j. lia.
  - intros m x Hm1 Hw Hnot Hx.
    assert (HmL : In m L) by (apply in_history_rows; auto).
    assert (Hsorted : StronglySorted newer_first (firstn j L ++ skipn j L))
      by (rewrite firstn_skipn; apply sort_desc_sorted).
    rewrite <- (firstn_skipn j L) in HmL. apply in_app_or in HmL.
    rewrite Hmsgs, <- in_rev in Hx.
    destruct HmL as [HmL | HmL].
    + exact (SS_app_rel _ _ _ Hsorted m x HmL Hx).
    + exfalso. apply Hnot. rewrite Hmsgs, <- in_rev. exact HmL.
Qed.

Lemma getMessages_negative_limit_witness :
  length [mkChatMessage 21 10 6 [104%N] TEXT None false false None 400000]
  = Nat.min 1 (length (filter (history_where demo_live 10 None) (messages demo_live))).
Proof.
  destruct (getMessages_negative_limit 1 6 None (-1) demo_live
              [mkChatMessage 21 10 6 [104%N] TEXT None false false None 400000] false demo_live)
    as [_ [chat [Hc [Hlen _]]]];
    [vm_compute; reflexivity | lia |].
  vm_compute in Hc. inversion Hc; subst chat. exact Hlen.
Defined.

(** When the page holds every matching message ([limit] positive and no
    smaller than their number, within the cap of 100), [hasMore] is false:
    no live message of the chat is older than the oldest of the page. *)
Theorem getMessages_hasMore_exhaustive :
  forall eventId userId before limit st msgs hasMore st' chat,
    getMessages eventId userId before limit st = (inr (msgs, hasMore), st') ->
    findChatByEvent st eventId = Some chat ->
    0 < limit ->
    (length (filter (history_where st (chat_id chat) before) (messages st))
       <= Z.to_nat (Z.min limit 100))%nat ->
    hasMore = false
    /\ length msgs = length (filter (history_where st (chat_id chat) before) (messages st)).
Proof.
  intros eventId userId before limit st msgs hasMore st' chat H Hc0 Hl Hcount.
  destruct (getMessages_spec _ _ _ _ _ _ _ _ H)
    as [-> [chat' [member [Hc [Hm [Hmsgs Hmore]]]]]].
  rewrite Hc0 in Hc. inversion Hc; subst chat'. clear Hc.
  set (L := history_rows st (chat_id chat) before) in *.
  assert (HLlen : length L = length (filter (history_where st (chat_id chat) before) (messages st)))
    by (apply Permutation_length, sort_desc_perm).
  assert (HT : take_rows (Z.min limit 100) L = L).
  { rewrite take_rows_pos by lia. apply firstn_all2. lia. }
  rewrite HT in Hmsgs, Hmore.
  split; [|rewrite Hmsgs, length_rev; exact HLlen].
  subst hasMore.
  destruct L as [|y L'] eqn:EL; [reflexivity|].
  assert (Hne : y :: L' <> []) by discriminate.
  destruct (exists_last Hne) as [l0 [o Ho]]. rewrite Ho, map_app. cbn [map]. rewrite last_last.
  assert (Hsorted : StronglySorted newer_first (l0 ++ [o])).
  { rewrite <- Ho, <- EL. apply sort_desc_sorted. }
  assert (HoL : In o L) by (rewrite EL, Ho; apply in_or_app; right; now left).
  apply in_history_rows in HoL. destruct HoL as [_ HoW]. apply history_where_spec in HoW.
  destruct HoW as [_ [_ HoC]].
  rewrite filter_all_false; [reflexivity|].
  intros m Hm1. destruct (Nat.eqb (msg_chatId m) (chat_id chat) && negb (isDeleted m)
                          && (createdAt m <? createdAt o)) eqn:E; [|reflexivity].
  exfalso. rewrite !andb_true_iff, negb_true_iff, Nat.eqb_eq, Z.ltb_lt in E.
  destruct E as [[E1 E2] E3].
  assert (HmL : In m L).
  { apply in_history_rows. split; [exact Hm1|]. apply history_where_spec.
    repeat split; auto. intros b c Hb Hcm. specialize (HoC b c Hb Hcm). lia. }
  rewrite EL, Ho in HmL. apply in_app_or in HmL. destruct HmL as [HmL | [<- | []]]; [|lia].
  assert (Hr : newer_first m o).
  { apply (SS_app_rel _ _ _ Hsorted m o HmL). now left. }
  unfold newer_first in Hr. lia.
Qed.

Lemma getMessages_hasMore_exhaustive_witness :
  length [mkChatMessage 21 10 6 [104%N] TEXT None false false None 400000]
  = length (filter (history_where demo_live 10 None) (messages demo_live)).
Proof.
  destruct (getMessages_hasMore_exhaustive 1 6 None 50 demo_live
              [mkChatMessage 21 10 6 [104%N] TEXT None false false None 400000] false demo_live
              demo_chat)
    as [_ Hlen]; [vm_compute; reflexivity | reflexivity | lia | vm_compute; lia |].
  exact Hlen.
Defined.

(** ** Pinned messages *)

Lemma getPinnedMessages_ok eventId userId st l st' :
  getPinnedMessages eventId userId st = (inr l, st') ->
  st' = st /\ exists chat, findChatByEvent st eventId = Some chat
  /\ l = sort_desc (filter (fun m => Nat.eqb (msg_chatId m) (chat_id chat)
                                     && isPinned m && negb (isDeleted m)) (messages st)).
Proof.
  intros H. unfold getPinnedMessages, bind, gets, throw in H.
  destruct (findChatByEvent st eventId) as [chat|] eqn:Hc; simpl in H; [|discriminate].
  inversion H; subst. eauto.
Qed.

(** [getPinnedMessages] reads without writing and lists exactly the
    pinned, not deleted messages of the event's chat, newest first; the
    caller's membership is not checked. *)
Theorem getPinnedMessages_contents :
  forall eventId userId st l st',
    getPinnedMessages eventId userId st = (inr l, st') ->
    st' = st /\ exists chat,
      findChatByEvent st eventId = Some chat
      /\ (forall m, In m l <-> In m (messages st) /\ msg_chatId m = chat_id chat
                              /\ isPinned m = true /\ isDeleted m = false)
      /\ StronglySorted newer_first l
      /\ length l = length (filter (fun m => Nat.eqb (msg_chatId m) (chat_id chat)
                                             && isPinned m && negb (isDeleted m)) (messages st)).
Proof.
  intros eventId userId st l st' H.
  destruct (getPinnedMessages_ok _ _ _ _ _ H) as [-> [chat [Hc ->]]].
  split; [reflexivity|]. exists chat. split; [exact Hc|]. split; [|split].
  - intros m. split.
    + intros Hin. apply (Permutation_in _ (sort_desc_perm _)) in Hin.
      apply filter_In in Hin. destruct Hin as [Hin Hf].
      rewrite !andb_true_iff, negb_true_iff, Nat.eqb_eq in Hf. tauto.
    + intros (Hin & H1 & H2 & H3).
      apply (Permutation_in _ (Permutation_sym (sort_desc_perm _))).
      apply filter_In. split; [exact Hin|].
      rewrite H1, H2, H3, Nat.eqb_refl. reflexivity.
  - apply sort_desc_sorted.
  - apply Permutation_length, sort_desc_perm.
Qed.

Lemma getPinnedMessages_contents_witness :
  getPinnedMessages 1 4
    (snd (moderateMessage 1 21 3 ACT_PIN demo_live))
  = (inr [mkChatMessage 21 10 6 [104%N] TEXT None true false None 400000],
     snd (moderateMessage 1 21 3 ACT_PIN demo_live))
  /\ StronglySorted newer_first [mkChatMessage 21 10 6 [104%N] TEXT None true false None 400000].
Proof.
  assert (H : getPinnedMessages 1 4 (snd (moderateMessage 1 21 3 ACT_PIN demo_live))
              = (inr [mkChatMessage 21 10 6 [104%N] TEXT None true false None 400000],
                 snd (moderateMessage 1 21 3 ACT_PIN demo_live)))
    by (vm_compute; reflexivity).
  split; [exact H|].
  destruct (getPinnedMessages_contents _ _ _ _ _ H) as [_ [chat [_ [_ [Hs _]]]]].
  exact Hs.
Defined.

(** ** Reads that do and do not check membership *)



(** ** Deleting a message *)

Lemma findMessage_update_message st id f msg :
  findMessage st id = Some msg -> (forall m, msg_id (f m) = msg_id m) ->
  findMessage (snd (update_message id f st)) id = Some (f msg).
Proof.
  intros Hf Hid. unfold findMessage, update_message, modify in *. simpl.
  rewrite find_map_same.
  - rewrite Hf. simpl. apply find_some in Hf. destruct Hf as [_ Hf]. now rewrite Hf.
  - intros x. destruct (Nat.eqb (msg_id x) id) eqn:E; [rewrite Hid|]; assumption.
Qed.

(** [moderateMessage] with [delete]: a message of another chat is
    [Message not found] and a plain member may not delete the message of
    someone else, both with nothing written; the sender, a moderator or
    the organizer deletes it, which keeps the row as a tombstone with its
    content, marked deleted by the actor. *)
Theorem moderateMessage_delete_rights :
  forall eventId messageId userId st chat member message,
    findChatByEvent st eventId = Some chat ->
    findMember st (chat_id chat) userId = Some member ->
    findMessage st messageId = Some message ->
    (msg_chatId message <> chat_id chat ->
       moderateMessage eventId messageId userId ACT_DELETE st = (inl E_MESSAGE_NOT_FOUND, st))
    /\ (msg_chatId message = chat_id chat -> senderId message <> userId ->
        m_role member = MEMBER ->
        moderateMessage eventId messageId userId ACT_DELETE st = (inl E_NOT_AUTHORIZED, st))
    /\ (msg_chatId message = chat_id chat ->
        (senderId message = userId \/ m_role member <> MEMBER) ->
        exists st', moderateMessage eventId messageId userId ACT_DELETE st
                    = (inr (Deleted messageId userId), st')
        /\ findMessage st' messageId = Some (with_deleted userId message)
        /\ content (with_deleted userId message) = content message
        /\ isDeleted (with_deleted userId message) = true
        /\ deletedBy (with_deleted userId message) = Some userId).
Proof.
  intros eventId messageId userId st chat member message Hc Hm Hmsg.
  assert (Hpre : forall act,
    moderateMessage eventId messageId userId act st
    = if negb (Nat.eqb (msg_chatId message) (chat_id chat)) then (inl E_MESSAGE_NOT_FOUND, st)
      else match act with
           | ACT_DELETE =>
               bind (when (negb (if Nat.eqb (senderId message) userId
                                 then canDeleteOwn (ROLE_PERMISSIONS (m_role member))
                                 else canDeleteAny (ROLE_PERMISSIONS (m_role member))))
                          E_NOT_AUTHORIZED)
                    (fun _ => let* _ := update_message messageId (with_deleted userId) in
                              ret (Deleted messageId userId)) st
           | _ => moderateMessage eventId messageId userId act st
           end).
  { intros act. destruct (negb (Nat.eqb (msg_chatId message) (chat_id chat))) eqn:E.
    - unfold moderateMessage, bind, gets, throw. rewrite Hc. simpl. rewrite Hm. simpl.
      rewrite Hmsg. simpl. rewrite E. reflexivity.
    - destruct act; try reflexivity.
      unfold moderateMessage at 1. unfold bind at 1 2 3, gets. rewrite Hc. simpl.
      rewrite Hm. simpl. rewrite Hmsg. simpl. rewrite E. reflexivity. }
  split; [|split].
  - intros Hne. rewrite Hpre. apply Nat.eqb_neq in Hne. now rewrite Hne.
  - intros Heq Hs Hr. rewrite Hpre. apply Nat.eqb_eq in Heq. rewrite Heq. simpl.
    apply Nat.eqb_neq in Hs. rewrite Hs, Hr. reflexivity.
  - intros Heq Hok. rewrite Hpre. apply Nat.eqb_eq in Heq. rewrite Heq. simpl.
    assert (Hcan : (if Nat.eqb (senderId message) userId
                    then canDeleteOwn (ROLE_PERMISSIONS (m_role member))
                    else canDeleteAny (ROLE_PERMISSIONS (m_role member))) = true).
    { destruct Hok as [Hs | Hr].
      - apply Nat.eqb_eq in Hs. rewrite Hs. destruct (m_role member); reflexivity.
      - destruct (Nat.eqb (senderId message) userId);
          destruct (m_role member); simpl; congruence. }
    rewrite Hcan. unfold bind, when, ret.
    eexists. split; [reflexivity|].
    split; [|repeat split].
    apply findMessage_update_message; [exact Hmsg | reflexivity].
Qed.

Lemma moderateMessage_delete_rights_witness :
  moderateMessage 1 21 4 ACT_DELETE demo_live = (inl E_NOT_AUTHORIZED, demo_live)
  /\ moderateMessage 1 22 3 ACT_DELETE demo_live = (inl E_MESSAGE_NOT_FOUND, demo_live).
Proof.
  destruct (moderateMessage_delete_rights 1 21 4 demo_live demo_chat
              (mkChatMember 32 10 4 MEMBER false None 0 0)
              (mkChatMessage 21 10 6 [104%N] TEXT None false false None 400000)
              eq_refl eq_refl eq_refl) as (_ & H1 & _).
  destruct (moderateMessage_delete_rights 1 22 3 demo_live demo_chat
              (mkChatMember 31 10 3 MODERATOR false None 0 0)
              (mkChatMessage 22 11 6 [104%N] TEXT None false false None 400000)
              eq_refl eq_refl eq_refl) as (H2 & _ & _).
  split; [apply H1; [reflexivity | discriminate | reflexivity] | apply H2; discriminate].
Defined.

(** ** Mutes as the sender meets them *)

Lemma sendMessage_muted_inv eventId userId body type replyTo now st st' chat member :
  sendMessage eventId userId body type replyTo now st = (inl E_USER_MUTED, st') ->
  findChatByEvent st eventId = Some chat ->
  findMember st (chat_id chat) userId = Some member ->
  isMuted member = true /\ (forall u, mutedUntil member = Some u -> now < u).
Proof.
  intros H Hc Hm.
  unfold sendMessage, slowModeCheck, createMessage, update_member, fresh_id, when,
         bind, gets, ret, throw, modify in H.
  destruct (MAX_MESSAGE_LENGTH <? Z.of_nat (length body)); simpl in H; [discriminate|].
  rewrite Hc in H. destruct (negb (isActive chat)); simpl in H; [discriminate|].
  rewrite Hm in H.
  destruct (isMuted member); [|case_on_branches H].
  destruct (mutedUntil member) as [u|]; [|split; [reflexivity|discriminate]].
  destruct (now <? u) eqn:Hu;
    [split; [reflexivity|intros u' Hu'; inversion Hu'; subst; now apply Z.ltb_lt]|].
  simpl in H. case_on_branches H.
Qed.

Lemma sendMessage_muted_refused eventId userId body type replyTo now st chat member :
  Z.of_nat (length body) <= 1000 ->
  findChatByEvent st eventId = Some chat -> isActive chat = true ->
  findMember st (chat_id chat) userId = Some member ->
  isMuted member = true -> (forall u, mutedUntil member = Some u -> now < u) ->
  sendMessage eventId userId body type replyTo now st = (inl E_USER_MUTED, st).
Proof.
  intros Hlen Hc Hact Hm Hmu Hu.
  unfold sendMessage, when, bind, gets, throw, MAX_MESSAGE_LENGTH.
  apply Z.ltb_ge in Hlen. rewrite Hlen. simpl. rewrite Hc, Hact. simpl. rewrite Hm, Hmu.
  destruct (mutedUntil member) as [u|]; [|reflexivity].
  specialize (Hu u eq_refl). apply Z.ltb_lt in Hu. rewrite Hu. reflexivity.
Qed.

(** The mute check of [sendMessage]: for a member of an active chat and a
    message within the length limit, the call is refused with
    [USER_MUTED] exactly when the membership is muted and its
    [mutedUntil], if any, is still ahead; a mute without an end never
    lapses. *)
Theorem sendMessage_mute_gate :
  forall eventId userId body type replyTo now st chat member,
    Z.of_nat (length body) <= 1000 ->
    findChatByEvent st eventId = Some chat -> isActive chat = true ->
    findMember st (chat_id chat) userId = Some member ->
    (fst (sendMessage eventId userId body type replyTo now st) = inl E_USER_MUTED
     <-> isMuted member = true /\ (forall u, mutedUntil member = Some u -> now < u)).
Proof.
  intros eventId userId body type replyTo now st chat member Hlen Hc Hact Hm. split.
  - intros H. destruct (sendMessage eventId userId body type replyTo now st) as [r st'] eqn:E.
    simpl in H. subst r. exact (sendMessage_muted_inv _ _ _ _ _ _ _ _ _ _ E Hc Hm).
  - intros [Hmu Hu]. now rewrite (sendMessage_muted_refused _ _ _ _ _ _ _ _ _ Hlen Hc Hact Hm Hmu Hu).
Qed.

Lemma sendMessage_mute_gate_witness :
  fst (sendMessage 1 4 [104%N] TEXT None 5000
         (set_members demo_live
            (map (fun m => if Nat.eqb (m_id m) 32 then with_mute true None m else m)
                 (members demo_live)))) = inl E_USER_MUTED.
Proof.
  apply (sendMessage_mute_gate 1 4 [104%N] TEXT None 5000 _ demo_chat
           (mkChatMember 32 10 4 MEMBER true None 0 0));
    [simpl; lia | reflexivity | reflexivity | reflexivity |].
  split; [reflexivity | discriminate].
Defined.

Lemma muteUser_ok_spec eventId targetUserId actorUserId d now st res st1 :
  muteUser eventId targetUserId actorUserId d now st = (inr res, st1) ->
  exists chat target,
    findChatByEvent st eventId = Some chat
    /\ findMember st (chat_id chat) targetUserId = Some target
    /\ res = mkMuteResult targetUserId (negb (d =? 0))
                          (if d =? 0 then None else Some (now + d * 60 * 1000))
    /\ st1 = snd (update_member (m_id target)
                   (with_mute (negb (d =? 0))
                              (if d =? 0 then None else Some (now + d * 60 * 1000))) st).
Proof.
  intros H. unfold muteUser, update_member, modify, bind, gets, when, throw, ret in H.
  case_on_branches H; inversion H; subst;
    do 2 eexists; repeat split; try eassumption; reflexivity.
Qed.

Lemma findMember_update_member st id f chatId userId target :
  findMember st chatId userId = Some target -> m_id target = id ->
  (forall m, member_is chatId userId (f m) = member_is chatId userId m) ->
  findMember (snd (update_member id f st)) chatId userId = Some (f target).
Proof.
  intros Hf Hid Hsame. unfold findMember, update_member, modify in *. simpl.
  rewrite find_map_same.
  - rewrite Hf. simpl. rewrite Hid, Nat.eqb_refl. reflexivity.
  - intros x. destruct (Nat.eqb (m_id x) id); [apply Hsame | reflexivity].
Qed.

(** A successful [muteUser] with a non-zero duration of [d] minutes at
    [now] makes the target's later [sendMessage] (in an active chat, within
    the length limit) fail with [USER_MUTED] exactly until [now + d]
    minutes; a duration of zero lifts the mute at once, and a negative
    duration reports [isMuted: true] while the target is never refused. *)
Theorem muteUser_then_sendMessage :
  forall eventId targetUserId actorUserId d now st res st1 chat body type replyTo t,
    muteUser eventId targetUserId actorUserId d now st = (inr res, st1) ->
    findChatByEvent st eventId = Some chat -> isActive chat = true ->
    Z.of_nat (length body) <= 1000 ->
    mr_isMuted res = negb (d =? 0)
    /\ (fst (sendMessage eventId targetUserId body type replyTo t st1) = inl E_USER_MUTED
        <-> d <> 0 /\ t < now + d * 60 * 1000).
Proof.
  intros eventId targetUserId actorUserId d now st res st1 chat body type replyTo t
         H Hc Hact Hlen.
  destruct (muteUser_ok_spec _ _ _ _ _ _ _ _ H) as (chat' & target & Hc' & Ht & -> & ->).
  rewrite Hc in Hc'. inversion Hc'; subst chat'. clear Hc'.
  split; [reflexivity|].
  set (g := with_mute (negb (d =? 0)) (if d =? 0 then None else Some (now + d * 60 * 1000))).
  set (st1 := snd (update_member (m_id target) g st)).
  assert (Hc1 : findChatByEvent st1 eventId = Some chat) by exact Hc.
  assert (Hm1 : findMember st1 (chat_id chat) targetUserId = Some (g target))
    by (apply findMember_update_member; [exact Ht | reflexivity | reflexivity]).
  split.
  - intros Hs. destruct (sendMessage eventId targetUserId body type replyTo t st1) as [r st2] eqn:E.
    simpl in Hs. subst r.
    destruct (sendMessage_muted_inv _ _ _ _ _ _ _ _ _ _ E Hc1 Hm1) as [Hmu Hu].
    unfold g in Hmu, Hu. simpl in Hmu, Hu.
    destruct (d =? 0) eqn:Hd; [discriminate|]. apply Z.eqb_neq in Hd.
    split; [exact Hd | apply Hu; reflexivity].
  - intros [Hd Ht'].
    rewrite (sendMessage_muted_refused _ _ _ _ _ _ _ _ _ Hlen Hc1 Hact Hm1); [reflexivity| |];
      unfold g; simpl; apply Z.eqb_neq in Hd; rewrite Hd; simpl; [reflexivity|].
    intros u Hu. inversion Hu. subst u. exact Ht'.
Qed.

Lemma muteUser_then_sendMessage_witness :
  fst (sendMessage 1 4 [104%N] TEXT None 300000 (snd (muteUser 1 4 3 10 0 demo_live)))
  = inl E_USER_MUTED.
Proof.
  apply (muteUser_then_sendMessage 1 4 3 10 0 demo_live
           (mkMuteResult 4 true (Some 600000)) (snd (muteUser 1 4 3 10 0 demo_live))
           demo_chat [104%N] TEXT None 300000);
    [vm_compute; reflexivity | reflexivity | reflexivity | simpl; lia |].
  split; lia.
Defined.

(** ** Chat settings *)

Definition settings_row (chat : EventChat) (slowMode_ : option Z) (isActive_ : option bool)
  (c : EventChat) : EventChat :=
  if Nat.eqb (chat_id c) (chat_id chat)
  then mkEventChat (chat_id c) (chat_eventId c)
                   (match isActive_ with Some b => b | None => isActive chat end)
                   (match slowMode_ with Some s => s | None => slowMode chat end)
                   (membersOnly c)
  else c.

Lemma updateSettings_ok_spec eventId userId slowMode_ isActive_ st r st' :
  updateSettings eventId userId slowMode_ isActive_ st = (inr r, st') ->
  exists chat ev,
    findChatByEvent st eventId = Some chat
    /\ findEvent st (chat_eventId chat) = Some ev
    /\ (organizerId ev = userId
        \/ exists m, findMember st (chat_id chat) userId = Some m /\ m_role m = ORGANIZER)
    /\ r = (match slowMode_ with Some s => s | None => slowMode chat end,
            match isActive_ with Some b => b | None => isActive chat end)
    /\ st' = set_chats st (map (settings_row chat slowMode_ isActive_) (chats st)).
Proof.
  intros H. unfold updateSettings, bind, gets, ret, throw, modify in H.
  destruct (findChatByEvent st eventId) as [chat|] eqn:Hc; simpl in H; [|discriminate].
  destruct (findEvent st (chat_eventId chat)) as [ev|] eqn:He; simpl in H; [|discriminate].
  exists chat, ev. split; [reflexivity|]. split; [assumption|].
  destruct (Nat.eqb (organizerId ev) userId) eqn:Ho; simpl in H.
  - inversion H; subst. apply Nat.eqb_eq in Ho. auto.
  - destruct (findMember st (chat_id chat) userId) as [m|] eqn:Hm; simpl in H; [|discriminate].
    destruct (ChatRole_eqb (m_role m) ORGANIZER) eqn:Hr; simpl in H; [|discriminate].
    inversion H; subst. split; [right; exists m; split; [reflexivity|]|auto].
    destruct (m_role m); simpl in Hr; congruence.
Qed.

Lemma findChatByEvent_settings st eventId chat slowMode_ isActive_ :
  findChatByEvent st eventId = Some chat ->
  findChatByEvent (set_chats st (map (settings_row chat slowMode_ isActive_) (chats st))) eventId
  = Some (settings_row chat slowMode_ isActive_ chat).
Proof.
  intros Hc. unfold findChatByEvent in *. simpl. rewrite find_map_same, Hc; [reflexivity|].
  intros c. unfold settings_row. destruct (Nat.eqb (chat_id c) (chat_id chat)); reflexivity.
Qed.



(** After a successful [updateSettings] with [isActive: false], every
    [sendMessage] to the event's chat (within the length limit) fails with
    [Chat is currently disabled] and every [getOrJoinChat] answers
    [{ chat: null, canJoin: false, reason: 'CHAT_DISABLED' }], whoever the
    caller, with nothing written. *)
Theorem updateSettings_disable_blocks :
  forall eventId userId slowMode_ st r st',
    updateSettings eventId userId slowMode_ (Some false) st = (inr r, st') ->
    (forall sender body type replyTo now, Z.of_nat (length body) <= 1000 ->
       sendMessage eventId sender body type replyTo now st' = (inl E_CHAT_DISABLED, st'))
    /\ (forall joiner now,
          getOrJoinChat eventId joiner now st' = (inr (mkJoinResult None false (Some CHAT_DISABLED)), st')).
Proof.
  intros eventId userId slowMode_ st r st' H.
  destruct (updateSettings_ok_spec _ _ _ _ _ _ _ H) as (chat & ev & Hc & He & _ & _ & ->).
  set (chat' := settings_row chat slowMode_ (Some false) chat).
  assert (Hc' := findChatByEvent_settings _ _ _ slowMode_ (Some false) Hc).
  fold chat' in Hc'.
  assert (Hoff : isActive chat' = false) by (unfold chat', settings_row; now rewrite Nat.eqb_refl).
  split.
  - intros sender body type replyTo now Hlen.
    unfold sendMessage, when, bind, gets, throw, MAX_MESSAGE_LENGTH.
    apply Z.ltb_ge in Hlen. rewrite Hlen. simpl. rewrite Hc', Hoff. reflexivity.
  - intros joiner now.
    assert (Hev : chat_eventId chat = eventId).
    { unfold findChatByEvent in Hc. apply find_some in Hc. now apply Nat.eqb_eq. }
    rewrite Hev in He.
    unfold getOrJoinChat, bind at 1.
    rewrite (loadChat_found _ _ chat' ev Hc' He).
    unfold bind, gets, ret. rewrite Hoff. reflexivity.
Qed.

Lemma updateSettings_disable_blocks_witness :
  sendMessage 1 6 [104%N] TEXT None 2000 (snd (updateSettings 1 100 None (Some false) demo_live))
  = (inl E_CHAT_DISABLED, snd (updateSettings 1 100 None (Some false) demo_live)).
Proof.
  destruct (updateSettings_disable_blocks 1 100 None demo_live (30, false)
              (snd (updateSettings 1 100 None (Some false) demo_live)))
    as [Hs _]; [vm_compute; reflexivity|].
  apply Hs. simpl. lia.
Defined.

(** ** The member list *)

Lemma filter_length_mono {A} (f g : A -> bool) l :
  (forall x, f x = true -> g x = true) -> (length (filter f l) <= length (filter g l))%nat.
Proof.
  intros Hfg. induction l as [|x l IH]; simpl; [lia|].
  destruct (f x) eqn:Ef; [rewrite (Hfg x Ef); simpl; lia|].
  destruct (g x); simpl; lia.
Qed.

Lemma take_rows_length_le {A} n (l : list A) : (length (take_rows n l) <= length l)%nat.
Proof.
  unfold take_rows. destruct (0 <? n).
  - rewrite length_firstn. lia.
  - rewrite length_skipn. lia.
Qed.

Lemma insert_seen_desc_perm m l : Permutation (insert_seen_desc m l) (m :: l).
Proof.
  induction l as [|x l IH]; simpl; [reflexivity|].
  destruct (lastSeenAt x <? lastSeenAt m); [reflexivity|].
  rewrite IH. apply perm_swap.
Qed.

Lemma sort_seen_desc_perm l : Permutation (sort_seen_desc l) l.
Proof.
  induction l as [|x l IH]; simpl; [reflexivity|].
  rewrite insert_seen_desc_perm, IH. reflexivity.
Qed.

(** [getMembers] reads without writing; its online count never exceeds
    its total, the list is no longer than the total nor than a positive
    [limit], and every listed entry is the view of a membership row of the
    event's chat, online when [onlineOnly] is set. *)
Theorem getMembers_shape :
  forall eventId userId onlineOnly limit now st views total online st',
    getMembers eventId userId onlineOnly limit now st = (inr (views, total, online), st') ->
    st' = st /\ (online <= total)%nat /\ (length views <= total)%nat
    /\ (0 < limit -> (length views <= Z.to_nat limit)%nat)
    /\ exists chat,
         findChatByEvent st eventId = Some chat
         /\ total = countMembers st (chat_id chat)
         /\ forall v, In v views ->
              exists m, In m (members st) /\ m_chatId m = chat_id chat
                        /\ v = memberView (now - FIVE_MINUTES_MS) m
                        /\ (onlineOnly = true -> mv_isOnline v = true).
Proof.
  intros eventId userId onlineOnly limit now st views total online st' H.
  unfold getMembers, bind, gets, ret, throw in H.
  destruct (findChatByEvent st eventId) as [chat|] eqn:Hc; simpl in H; [|discriminate].
  injection H as Hv Ht Ho Hs. subst views total online st'.
  set (p := fun m => Nat.eqb (m_chatId m) (chat_id chat)
                     && (negb onlineOnly || (now - FIVE_MINUTES_MS <=? lastSeenAt m))).
  set (rows := take_rows limit (sort_seen_desc (filter p (members st)))).
  assert (Hrows : (length rows <= countMembers st (chat_id chat))%nat).
  { unfold rows, countMembers.
    eapply Nat.le_trans; [apply take_rows_length_le|].
    rewrite (Permutation_length (sort_seen_desc_perm _)).
    apply filter_length_mono. intros x Hx. unfold p in Hx.
    now apply andb_true_iff in Hx as [Hx _]. }
  split; [reflexivity|]. split; [|split; [|split]].
  - unfold countOnline, countMembers. apply filter_length_mono.
    intros x Hx. now apply andb_true_iff in Hx as [Hx _].
  - now rewrite length_map.
  - intros Hl. rewrite length_map. unfold rows. rewrite take_rows_pos by exact Hl.
    apply firstn_le_length.
  - exists chat. split; [reflexivity|]. split; [reflexivity|].
    intros v Hv. apply in_map_iff in Hv. destruct Hv as [m [<- Hm]].
    apply in_take_rows in Hm.
    apply (Permutation_in _ (sort_seen_desc_perm _)) in Hm.
    apply filter_In in Hm. destruct Hm as [Hm Hp]. unfold p in Hp.
    apply andb_true_iff in Hp. destruct Hp as [Hch Hon].
    exists m. split; [exact Hm|]. split; [now apply Nat.eqb_eq|]. split; [reflexivity|].
    intros Ho. rewrite Ho in Hon. exact Hon.
Qed.

Lemma getMembers_shape_witness :
  Nat.le (length (map (memberView (1000 - FIVE_MINUTES_MS))
               (take_rows 2 (sort_seen_desc
                  (filter (fun m => Nat.eqb (m_chatId m) 10
                                    && (negb false || (1000 - FIVE_MINUTES_MS <=? lastSeenAt m)))
                          (members demo_live)))))) 2.
Proof.
  destruct (getMembers_shape 1 4 false 2 1000 demo_live
              (map (memberView (1000 - FIVE_MINUTES_MS))
                   (take_rows 2 (sort_seen_desc
                      (filter (fun m => Nat.eqb (m_chatId m) 10
                                        && (negb false || (1000 - FIVE_MINUTES_MS <=? lastSeenAt m)))
                              (members demo_live)))))
              4 4 demo_live)
    as (_ & _ & _ & Hl & _); [reflexivity|].
  apply Hl. lia.
Defined.

(** ** The user's chat list *)

(** The order [chatPreviews.sort] produces: a chat with a last message
    before one without, and among chats with one, the newer first. *)
Definition preview_before (a b : ChatPreview) : Prop :=
  match lastMessageTime a, lastMessageTime b with
  | _, None => True
  | None, Some _ => False
  | Some ta, Some tb => tb <= ta
  end.

Lemma compare_previews_before a b : compare_previews a b <= 0 <-> preview_before a b.
Proof.
  unfold compare_previews, preview_before.
  destruct (lastMessageTime a), (lastMessageTime b); split; intros; try lia; tauto.
Qed.

Lemma compare_previews_anti a b : compare_previews a b = - compare_previews b a.
Proof.
  unfold compare_previews. destruct (lastMessageTime a), (lastMessageTime b); lia.
Qed.

Lemma preview_before_trans a b c :
  preview_before a b -> preview_before b c -> preview_before a c.
Proof.
  unfold preview_before.
  destruct (lastMessageTime a), (lastMessageTime b), (lastMessageTime c); tauto || lia.
Qed.

Lemma insert_by_perm {A} (cmp : A -> A -> Z) x l : Permutation (insert_by cmp x l) (x :: l).
Proof.
  induction l as [|y l IH]; simpl; [reflexivity|].
  destruct (0 <? cmp y x); [reflexivity|].
  rewrite IH. apply perm_swap.
Qed.

Lemma sort_by_perm {A} (cmp : A -> A -> Z) l : Permutation (sort_by cmp l) l.
Proof.
  unfold sort_by.
  assert (Hg : forall acc, Permutation (fold_left (fun acc x => insert_by cmp x acc) l acc)
                                       (l ++ acc)).
  { induction l as [|x l IH]; intros acc; simpl; [reflexivity|].
    rewrite IH, insert_by_perm. apply Permutation_sym, Permutation_middle. }
  rewrite Hg, app_nil_r. reflexivity.
Qed.

Lemma insert_by_sorted x l :
  StronglySorted preview_before l ->
  StronglySorted preview_before (insert_by compare_previews x l).
Proof.
  induction l as [|y l IH]; simpl; intros Hs.
  - repeat constructor.
  - inversion Hs as [|? ? Hl Hf]; subst.
    destruct (0 <? compare_previews y x) eqn:E.
    + apply Z.ltb_lt in E.
      assert (Hxy : preview_before x y)
        by (apply compare_previews_before; rewrite compare_previews_anti; lia).
      constructor; [exact Hs|]. constructor; [exact Hxy|].
      eapply Forall_impl; [|exact Hf]. intros z Hz. eapply preview_before_trans; eauto.
    + apply Z.ltb_ge in E. apply compare_previews_before in E.
      constructor; [now apply IH|].
      apply Forall_forall. intros z Hz.
      apply (Permutation_in _ (insert_by_perm compare_previews x l)) in Hz.
      destruct Hz as [<- | Hz]; [exact E|]. eapply Forall_forall in Hf; eauto.
Qed.

Lemma sort_by_sorted l : StronglySorted preview_before (sort_by compare_previews l).
Proof.
  unfold sort_by.
  assert (Hg : forall acc, StronglySorted preview_before acc ->
            StronglySorted preview_before
              (fold_left (fun acc x => insert_by compare_previews x acc) l acc)).
  { induction l as [|x l IH]; intros acc Ha; simpl; [exact Ha|].
    apply IH, insert_by_sorted, Ha. }
  apply Hg. constructor.
Qed.

Lemma mapM_read {A B} (f : A -> M B) l st ys st' :
  (forall x s, snd (f x s) = s) ->
  mapM f l st = (inr ys, st') ->
  st' = st /\ Forall2 (fun x y => f x st = (inr y, st)) l ys.
Proof.
  intros Hro. revert ys st'. induction l as [|x l IH]; intros ys st' H; simpl in H.
  - inversion H; subst. auto.
  - unfold bind at 1 in H. specialize (Hro x st).
    destruct (f x st) as [[e|y] s1] eqn:Ef; [discriminate|]. simpl in Hro. subst s1.
    unfold bind in H. destruct (mapM f l st) as [[e|ys'] s2] eqn:Em; [discriminate|].
    unfold ret in H. inversion H; subst.
    destruct (IH ys' st' eq_refl) as [-> HF]. auto.
Qed.

Lemma chatPreview_read userId x s : snd (chatPreview userId x s) = s.
Proof.
  unfold chatPreview, bind, gets, ret, throw.
  destruct (findChatById s (m_chatId x)); simpl; [|reflexivity].
  destruct (findEvent s _); reflexivity.
Qed.

Lemma chatPreview_ok userId x st p :
  chatPreview userId x st = (inr p, st) ->
  exists chat, findChatById st (m_chatId x) = Some chat
    /\ cp_id p = chat_id chat
    /\ unreadCount p = length (filter (unread_where (chat_id chat) userId (lastSeenAt x))
                                      (messages st))
    /\ lastMessageTime p = option_map createdAt (lastLiveMessage st (chat_id chat)).
Proof.
  intros H. unfold chatPreview, bind, gets, ret, throw in H.
  destruct (findChatById st (m_chatId x)) as [chat|]; simpl in H; [|discriminate].
  destruct (findEvent st (chat_eventId chat)); simpl in H; [|discriminate].
  inversion H; subst. exists chat. auto.
Qed.

Lemma getUserEventChats_previews userId st ps st' :
  getUserEventChats userId st = (inr ps, st') ->
  st' = st
  /\ exists raw, Forall2 (fun x y => chatPreview userId x st = (inr y, st))
                         (sort_seen_desc (filter (fun m => Nat.eqb (m_userId m) userId) (members st)))
                         raw
                 /\ ps = sort_by compare_previews raw.
Proof.
  intros H. unfold getUserEventChats, bind at 1, gets in H.
  unfold bind in H.
  destruct (mapM (chatPreview userId) _ st) as [[e|raw] s1] eqn:Em; [discriminate|].
  unfold ret in H. inversion H; subst.
  destruct (mapM_read _ _ _ _ _ (chatPreview_read userId) Em) as [-> HF].
  split; [reflexivity|]. eauto.
Qed.

(** [getUserEventChats] reads without writing and answers one preview
    per membership row of the user, ordered as the sort's comparator
    asks: chats with a last message first, newest first, then the chats
    without one. *)
Theorem getUserEventChats_order :
  forall userId st ps st',
    getUserEventChats userId st = (inr ps, st') ->
    st' = st
    /\ length ps = length (filter (fun m => Nat.eqb (m_userId m) userId) (members st))
    /\ StronglySorted preview_before ps.
Proof.
  intros userId st ps st' H.
  destruct (getUserEventChats_previews _ _ _ _ H) as [-> [raw [HF ->]]].
  split; [reflexivity|]. split.
  - rewrite (Permutation_length (sort_by_perm _ _)), <- (Forall2_length HF).
    apply Permutation_length, sort_seen_desc_perm.
  - apply sort_by_sorted.
Qed.

Lemma getUserEventChats_order_witness :
  StronglySorted preview_before
    (match fst (getUserEventChats 6 demo_live) with inr ps => ps | inl _ => [] end).
Proof.
  destruct (getUserEventChats_order 6 demo_live
              (match fst (getUserEventChats 6 demo_live) with inr ps => ps | inl _ => [] end)
              demo_live) as (_ & _ & Hs); [vm_compute; reflexivity|].
  exact Hs.
Defined.

Lemma Forall2_in_r {A B} (R : A -> B -> Prop) l1 l2 y :
  Forall2 R l1 l2 -> In y l2 -> exists x, In x l1 /\ R x y.
Proof.
  intros HF. induction HF as [|x y' l1 l2 Hxy HF IH]; simpl; [tauto|].
  intros [<- | Hy]; [eauto|]. destruct (IH Hy) as [x' [Hx' Hr]]. eauto.
Qed.

(** [chat:read] clears the unread count: after [updateLastSeen] at [now]
    for a user of the event's chat, when no stored message is newer than
    [now], every preview of that chat in the user's [getUserEventChats]
    has [unreadCount] zero. *)
Theorem updateLastSeen_clears_unread :
  forall eventId userId now st chat ps st2,
    findChatByEvent st eventId = Some chat ->
    (forall m, In m (messages st) -> createdAt m <= now) ->
    getUserEventChats userId (snd (updateLastSeen eventId userId now st)) = (inr ps, st2) ->
    forall p, In p ps -> cp_id p = chat_id chat -> unreadCount p = 0%nat.
Proof.
  intros eventId userId now st chat ps st2 Hc Hold H p Hp Hid.
  set (st1 := snd (updateLastSeen eventId userId now st)) in *.
  assert (Hst1 : st1 = set_members st
            (map (fun m => if member_is (chat_id chat) userId m then with_lastSeenAt now m else m)
                 (members st)))
    by (unfold st1, updateLastSeen, bind, gets, modify; rewrite Hc; reflexivity).
  destruct (getUserEventChats_previews _ _ _ _ H) as [-> [raw [HF Hps]]].
  rewrite Hps in Hp. apply (Permutation_in _ (sort_by_perm _ _)) in Hp.
  destruct (Forall2_in_r _ _ _ _ HF Hp) as [x [Hx Hpx]].
  destruct (chatPreview_ok _ _ _ _ Hpx) as (chat0 & Hc0 & Hid0 & Hun & _).
  rewrite Hun.
  assert (Hxc : m_chatId x = chat_id chat).
  { unfold findChatById in Hc0. apply find_some in Hc0. destruct Hc0 as [_ Hc0].
    apply Nat.eqb_eq in Hc0. congruence. }
  apply (Permutation_in _ (sort_seen_desc_perm _)) in Hx.
  apply filter_In in Hx. destruct Hx as [Hx Hxu]. apply Nat.eqb_eq in Hxu.
  rewrite Hst1 in Hx. simpl in Hx. apply in_map_iff in Hx. destruct Hx as [x0 [Hx0 Hin0]].
  assert (Hseen : lastSeenAt x = now).
  { destruct (member_is (chat_id chat) userId x0) eqn:Emi.
    - subst x. reflexivity.
    - subst x0. unfold member_is in Emi. rewrite Hxc, Hxu, !Nat.eqb_refl in Emi. discriminate. }
  rewrite Hseen, <- Hid0, Hid. rewrite Hst1. simpl.
  rewrite filter_all_false; [reflexivity|].
  intros m Hm. unfold unread_where. specialize (Hold m Hm).
  replace (now <? createdAt m) with false by (symmetry; apply Z.ltb_ge; lia).
  rewrite andb_false_r. reflexivity.
Qed.

Lemma updateLastSeen_clears_unread_witness :
  Forall (fun p => cp_id p = 10%nat -> unreadCount p = 0%nat)
    (match fst (getUserEventChats 6 (snd (updateLastSeen 1 6 600000 demo_live))) with
     | inr ps => ps | inl _ => [] end).
Proof.
  apply Forall_forall.
  apply (updateLastSeen_clears_unread 1 6 600000 demo_live demo_chat _
           (snd (getUserEventChats 6 (snd (updateLastSeen 1 6 600000 demo_live)))));
    [reflexivity | | vm_compute; reflexivity].
  intros m Hm. simpl in Hm. destruct Hm as [<- | [<- | [<- | []]]]; simpl; lia.
Defined.

(** ** What a run of the chat service keeps *)

Definition member_kept (m m' : ChatMember) : Prop :=
  m_id m' = m_id m /\ m_chatId m' = m_chatId m /\ m_userId m' = m_userId m
  /\ m_role m' = m_role m /\ joinedAt m' = joinedAt m.

Definition message_kept (m m' : ChatMessage) : Prop :=
  msg_id m' = msg_id m /\ msg_chatId m' = msg_chatId m /\ senderId m' = senderId m
  /\ content m' = content m /\ msg_type m' = msg_type m /\ replyToId m' = replyToId m
  /\ createdAt m' = createdAt m /\ (isDeleted m = true -> isDeleted m' = true).

Definition chat_kept (c c' : EventChat) : Prop :=
  chat_id c' = chat_id c /\ chat_eventId c' = chat_eventId c /\ membersOnly c' = membersOnly c.

(** [l'] is [l] with each row related to its old version, followed by new
    rows. *)
Definition extends {A} (R : A -> A -> Prop) (l l' : list A) : Prop :=
  exists kept added, Forall2 R l kept /\ l' = kept ++ added.

Definition rows_kept (st st' : Store) : Prop :=
  events st' = events st /\ teamMembers st' = teamMembers st /\ attendees st' = attendees st
  /\ extends chat_kept (chats st) (chats st')
  /\ extends member_kept (members st) (members st')
  /\ extends message_kept (messages st) (messages st')
  /\ (next_id st <= next_id st')%nat.

Definition keeps {A} (c : M A) : Prop := forall st, rows_kept st (snd (c st)).

Section Keeps.

Lemma Forall2_refl {A} (R : A -> A -> Prop) l : (forall x, R x x) -> Forall2 R l l.
Proof. intros Hr. induction l; constructor; auto. Qed.

Lemma Forall2_trans {A} (R : A -> A -> Prop) l1 l2 l3 :
  (forall x y z, R x y -> R y z -> R x z) -> Forall2 R l1 l2 -> Forall2 R l2 l3 -> Forall2 R l1 l3.
Proof.
  intros Ht H12. revert l3. induction H12 as [|x y l1 l2 Hxy H12 IH]; intros l3 H23;
    inversion H23; subst; constructor; eauto.
Qed.

Lemma extends_refl {A} (R : A -> A -> Prop) l : (forall x, R x x) -> extends R l l.
Proof. intros Hr. exists l, []. rewrite app_nil_r. split; [now apply Forall2_refl|reflexivity]. Qed.

Lemma extends_trans {A} (R : A -> A -> Prop) l1 l2 l3 :
  (forall x y z, R x y -> R y z -> R x z) -> extends R l1 l2 -> extends R l2 l3 -> extends R l1 l3.
Proof.
  intros Ht [k1 [a1 [H1 ->]]] [k2 [a2 [H2 ->]]].
  destruct (Forall2_app_inv_l _ _ H2) as [k2a [k2b [Ha [Hb ->]]]].
  exists k2a, (k2b ++ a2). split; [eapply Forall2_trans; eauto|]. now rewrite app_assoc.
Qed.

Lemma extends_map {A} (R : A -> A -> Prop) (g : A -> A) l :
  (forall x, R x (g x)) -> extends R l (map g l).
Proof.
  intros Hg. exists (map g l), []. rewrite app_nil_r. split; [|reflexivity].
  induction l; constructor; auto.
Qed.

Lemma extends_app {A} (R : A -> A -> Prop) l x : (forall y, R y y) -> extends R l (l ++ [x]).
Proof. intros Hr. exists l, [x]. split; [now apply Forall2_refl|reflexivity]. Qed.

Lemma member_kept_refl m : member_kept m m.
Proof. repeat split. Qed.

Lemma message_kept_refl m : message_kept m m.
Proof. repeat split; auto. Qed.

Lemma chat_kept_refl c : chat_kept c c.
Proof. repeat split. Qed.

Lemma member_kept_trans a b c : member_kept a b -> member_kept b c -> member_kept a c.
Proof. unfold member_kept. intuition congruence. Qed.

Lemma message_kept_trans a b c : message_kept a b -> message_kept b c -> message_kept a c.
Proof. unfold message_kept. intuition congruence. Qed.

Lemma chat_kept_trans a b c : chat_kept a b -> chat_kept b c -> chat_kept a c.
Proof. unfold chat_kept. intuition congruence. Qed.

Lemma rows_kept_refl st : rows_kept st st.
Proof.
  repeat split; auto using extends_refl, chat_kept_refl, member_kept_refl, message_kept_refl.
Qed.

Lemma rows_kept_trans st1 st2 st3 : rows_kept st1 st2 -> rows_kept st2 st3 -> rows_kept st1 st3.
Proof.
  intros (E1 & T1 & A1 & C1 & M1 & G1 & N1) (E2 & T2 & A2 & C2 & M2 & G2 & N2).
  repeat split; try congruence; try lia.
  - eapply extends_trans; eauto using chat_kept_trans.
  - eapply extends_trans; eauto using member_kept_trans.
  - eapply extends_trans; eauto using message_kept_trans.
Qed.

Lemma keeps_ret {A} (a : A) : keeps (ret a).
Proof. intros st. apply rows_kept_refl. Qed.

Lemma keeps_gets {A} (f : Store -> A) : keeps (gets f).
Proof. intros st. apply rows_kept_refl. Qed.

Lemma keeps_throw {A} e : keeps (@throw A e).
Proof. intros st. apply rows_kept_refl. Qed.

Lemma keeps_when b e : keeps (when b e).
Proof. intros st. destruct b; apply rows_kept_refl. Qed.

Lemma keeps_fresh : keeps fresh_id.
Proof.
  intros st. repeat split; simpl;
    auto using extends_refl, chat_kept_refl, member_kept_refl, message_kept_refl.
Qed.

Lemma keeps_bind {A B} (c : M A) (f : A -> M B) :
  keeps c -> (forall a, keeps (f a)) -> keeps (bind c f).
Proof.
  intros Hc Hf st. unfold bind. specialize (Hc st).
  destruct (c st) as [[e|a] st']; simpl in *; [exact Hc|].
  eapply rows_kept_trans; [exact Hc | apply Hf].
Qed.

Lemma kept_chats_app st c : rows_kept st (set_chats st (chats st ++ [c])).
Proof.
  repeat split; simpl; auto using extends_refl, extends_app, chat_kept_refl, member_kept_refl,
    message_kept_refl.
Qed.

Lemma kept_members_app st m : rows_kept st (set_members st (members st ++ [m])).
Proof.
  repeat split; simpl; auto using extends_refl, extends_app, chat_kept_refl, member_kept_refl,
    message_kept_refl.
Qed.

Lemma kept_messages_app st m : rows_kept st (set_messages st (messages st ++ [m])).
Proof.
  repeat split; simpl; auto using extends_refl, extends_app, chat_kept_refl, member_kept_refl,
    message_kept_refl.
Qed.

Lemma kept_chats_map st g : (forall c, chat_kept c (g c)) -> rows_kept st (set_chats st (map g (chats st))).
Proof.
  intros Hg. repeat split; simpl;
    auto using extends_refl, extends_map, member_kept_refl, message_kept_refl.
Qed.

Lemma kept_members_map st g :
  (forall m, member_kept m (g m)) -> rows_kept st (set_members st (map g (members st))).
Proof.
  intros Hg. repeat split; simpl;
    auto using extends_refl, extends_map, chat_kept_refl, message_kept_refl.
Qed.

Lemma kept_messages_map st g :
  (forall m, message_kept m (g m)) -> rows_kept st (set_messages st (map g (messages st))).
Proof.
  intros Hg. repeat split; simpl;
    auto using extends_refl, extends_map, chat_kept_refl, member_kept_refl.
Qed.

Lemma keeps_update_member id f : (forall m, member_kept m (f m)) -> keeps (update_member id f).
Proof.
  intros Hf st. apply kept_members_map. intros m.
  destruct (Nat.eqb (m_id m) id); [apply Hf | apply member_kept_refl].
Qed.

Lemma keeps_update_message id f : (forall m, message_kept m (f m)) -> keeps (update_message id f).
Proof.
  intros Hf st. apply kept_messages_map. intros m.
  destruct (Nat.eqb (msg_id m) id); [apply Hf | apply message_kept_refl].
Qed.

Lemma keeps_modify f : (forall st, rows_kept st (f st)) -> keeps (modify f).
Proof. intros Hf st. apply Hf. Qed.

End Keeps.

Create HintDb keeps.
#[export] Hint Resolve keeps_ret keeps_gets keeps_throw keeps_when keeps_fresh : keeps.

Ltac kept_row :=
  intro; cbv beta;
  repeat match goal with |- context [if ?b then _ else _] => destruct b end;
  cbv [member_kept message_kept chat_kept]; simpl; repeat split; auto.

Ltac keeps_solve :=
  repeat match goal with
  | |- keeps (bind _ _) => apply keeps_bind; [| intro]
  | |- keeps (update_member _ _) => apply keeps_update_member; kept_row
  | |- keeps (update_message _ _) => apply keeps_update_message; kept_row
  | |- keeps (modify _) =>
      apply keeps_modify; intro;
      first [ apply kept_chats_app | apply kept_members_app | apply kept_messages_app
            | apply kept_chats_map; kept_row | apply kept_members_map; kept_row ]
  | |- keeps (match ?x with _ => _ end) => destruct x
  | |- keeps (if ?b then _ else _) => destruct b
  | |- keeps (let _ := _ in _) => cbv zeta
  | |- keeps _ => solve [auto with keeps]
  end.

Lemma keeps_getOrJoinChat eventId userId now : keeps (getOrJoinChat eventId userId now).
Proof. unfold getOrJoinChat, loadChat, createChat, createMember. keeps_solve. Qed.

Lemma keeps_getMessages eventId userId before limit : keeps (getMessages eventId userId before limit).
Proof. unfold getMessages. keeps_solve. Qed.

Lemma keeps_getPinnedMessages eventId userId : keeps (getPinnedMessages eventId userId).
Proof. unfold getPinnedMessages. keeps_solve. Qed.

Lemma keeps_sendMessage eventId userId body type replyTo now :
  keeps (sendMessage eventId userId body type replyTo now).
Proof. unfold sendMessage, slowModeCheck, createMessage. keeps_solve. Qed.

Lemma keeps_moderateMessage eventId messageId userId action :
  keeps (moderateMessage eventId messageId userId action).
Proof. unfold moderateMessage. keeps_solve. Qed.

Lemma keeps_muteUser eventId targetUserId actorUserId durationMinutes now :
  keeps (muteUser eventId targetUserId actorUserId durationMinutes now).
Proof. unfold muteUser. keeps_solve. Qed.

Lemma keeps_updateSettings eventId userId slowMode_ isActive_ :
  keeps (updateSettings eventId userId slowMode_ isActive_).
Proof. unfold updateSettings. keeps_solve. Qed.

Lemma keeps_updateLastSeen eventId userId now : keeps (updateLastSeen eventId userId now).
Proof. unfold updateLastSeen. keeps_solve. Qed.

Lemma run_op_keeps o st : rows_kept st (run_op o st).
Proof.
  destruct o; simpl.
  - apply keeps_getOrJoinChat.
  - apply keeps_getMessages.
  - apply keeps_getPinnedMessages.
  - apply keeps_sendMessage.
  - apply keeps_moderateMessage.
  - apply keeps_muteUser.
  - apply keeps_updateSettings.
  - apply keeps_updateLastSeen.
Qed.

(** Over every run of the chat service, no row is ever removed: events,
    team members and attendees are untouched; chats keep their id, event
    and [membersOnly]; membership rows keep their id, chat, user, role
    (fixed when joining) and [joinedAt]; messages keep their id, chat,
    sender, content, type, reply reference and [createdAt], and a deleted
    message stays deleted; new rows are only appended and identifiers only
    grow. *)
Theorem chat_ops_keep_rows :
  forall st0 st, reachable st0 st -> rows_kept st0 st.
Proof.
  intros st0 st Hr. induction Hr as [| o st _ IH].
  - apply rows_kept_refl.
  - eapply rows_kept_trans; [exact IH | apply run_op_keeps].
Qed.

Lemma chat_ops_keep_rows_witness :
  rows_kept demo_live (run_op (OpModerateMessage 1 21 3 ACT_DELETE)
                        (run_op (OpUpdateSettings 1 100 (Some 0) None) demo_live)).
Proof.
  apply chat_ops_keep_rows. apply reach_step, reach_step, reach_init.
Defined.

(** ** Counts reported on a first join *)

(** A user who joins an existing chat for the first time gets a
    [memberCount] read before the row is created, so it leaves them out,
    while the [onlineCount], read after, includes them. *)
Theorem getOrJoinChat_first_join_counts :
  forall eventId userId now st chat r st',
    findChatByEvent st eventId = Some chat ->
    findMember st (chat_id chat) userId = None ->
    getOrJoinChat eventId userId now st = (inr r, st') ->
    canJoin r = true ->
    exists info, jr_chat r = Some info
      /\ memberCount info = countMembers st (chat_id chat)
      /\ countMembers st' (chat_id chat) = S (memberCount info)
      /\ onlineCount info = S (countOnline st (chat_id chat) (now - FIVE_MINUTES_MS)).
Proof.
  intros eventId userId now st chat r st' Hc Hm H Hj.
  unfold getOrJoinChat, loadChat, createMember, update_member, fresh_id,
         bind, ret, gets, modify, throw in H.
  rewrite Hc in H. simpl in H.
  destruct (findEvent st eventId) as [ev|] eqn:He; simpl in H; [|discriminate].
  case_on_branches H; inversion H; subst; clear H; simpl in Hj; try discriminate.
  all: eexists; split; [reflexivity|]; simpl.
  all: unfold countMembers, countOnline; simpl; rewrite !filter_app, !length_app; simpl;
       rewrite Nat.eqb_refl; simpl.
  all: replace (now - FIVE_MINUTES_MS <=? now) with true
         by (symmetry; apply Z.leb_le; unfold FIVE_MINUTES_MS; lia).
  all: simpl; repeat split; lia.
Qed.

Lemma getOrJoinChat_first_join_counts_witness :
  match jr_chat (match fst (getOrJoinChat 2 100 1000 demo_live) with
                 | inr r => r | inl _ => mkJoinResult None false None end) with
  | Some info => memberCount info = 1%nat /\ onlineCount info = 2%nat
  | None => False
  end.
Proof.
  destruct (getOrJoinChat_first_join_counts 2 100 1000 demo_live demo_chat2
              (match fst (getOrJoinChat 2 100 1000 demo_live) with
               | inr r => r | inl _ => mkJoinResult None false None end)
              (snd (getOrJoinChat 2 100 1000 demo_live)))
    as [info [Hi [Hmc [_ Hoc]]]];
    [reflexivity | reflexivity | vm_compute; reflexivity | vm_compute; reflexivity |].
  rewrite Hi. split; [rewrite Hmc | rewrite Hoc]; vm_compute; reflexivity.
Defined.

(** ** The chat of an event is created once *)

(** The first [getOrJoinChat] for an event without a chat that returns
    creates one chat with the defaults of the migration (active, no slow
    mode, members only), whatever the answer to the caller; a later call
    for the same event, by anyone, finds it and creates no other. *)
Theorem getOrJoinChat_creates_chat_once :
  forall eventId userId userId' now now' st r st1,
    findChatByEvent st eventId = None ->
    getOrJoinChat eventId userId now st = (inr r, st1) ->
    findChatByEvent st1 eventId = Some (mkEventChat (next_id st) eventId true 0 true)
    /\ chats st1 = chats st ++ [mkEventChat (next_id st) eventId true 0 true]
    /\ (forall r2 st2, getOrJoinChat eventId userId' now' st1 = (inr r2, st2) ->
                       chats st2 = chats st1).
Proof.
  intros eventId userId userId' now now' st r st1 Hnone H.
  destruct (getOrJoinChat_members _ _ _ _ _ _ H) as (chat & ev & n & stL & HL & Hch & Hev & _).
  destruct (loadChat_spec _ _ _ _ _ _ HL) as (HcL & _ & HevL & He).
  assert (HchL : chats stL = chats st ++ [mkEventChat (next_id st) eventId true 0 true]
                 /\ chat = mkEventChat (next_id st) eventId true 0 true).
  { unfold loadChat, createChat, fresh_id, bind, gets, ret, modify, throw in HL.
    rewrite Hnone in HL. simpl in HL. rewrite He in HL. simpl in HL.
    rewrite Hnone in HL. simpl in HL. unfold findEvent in HL, He. simpl in HL. rewrite He in HL.
    inversion HL; subst. auto. }
  destruct HchL as [HchL ->].
  assert (Hc1 : findChatByEvent st1 eventId = Some (mkEventChat (next_id st) eventId true 0 true))
    by (unfold findChatByEvent in *; rewrite Hch; exact HcL).
  split; [exact Hc1|]. split; [congruence|].
  intros r2 st2 H2.
  assert (He1 : findEvent st1 eventId = Some ev)
    by (unfold findEvent in *; rewrite Hev, HevL; exact He).
  destruct (getOrJoinChat_members _ _ _ _ _ _ H2) as (chat2 & ev2 & n2 & stL2 & HL2 & Hch2 & _).
  rewrite (loadChat_found _ _ _ _ Hc1 He1) in HL2. inversion HL2; subst. exact Hch2.
Qed.

Lemma getOrJoinChat_creates_chat_once_witness :
  chats (snd (getOrJoinChat 1 6 700 (snd (getOrJoinChat 1 4 500 demo_store))))
  = [mkEventChat 0 1 true 0 true].
Proof.
  destruct (getOrJoinChat_creates_chat_once 1 4 6 500 700 demo_store
              (mkJoinResult (Some (formatChatInfo (mkEventChat 0 1 true 0 true) 0 MEMBER false))
                            false (Some NO_TICKET))
              (snd (getOrJoinChat 1 4 500 demo_store)))
    as (_ & Hch & Hagain); [reflexivity | vm_compute; reflexivity |].
  rewrite (Hagain (match fst (getOrJoinChat 1 6 700 (snd (getOrJoinChat 1 4 500 demo_store))) with
                   | inr r => r | inl _ => mkJoinResult None false None end)
                  (snd (getOrJoinChat 1 6 700 (snd (getOrJoinChat 1 4 500 demo_store))))).
  - exact Hch.
  - vm_compute. reflexivity.
Defined.
